(** * vizbot.core.trainer: the training-session coordinator

    A shallow embedding of [src/vizbot/core/trainer.py].  The [Trainer]
    object becomes a record, its methods become functions in a small
    state-and-exception monad, and every call that leaves the class (agent,
    environment, experience buffer, file system, locks) is recorded in a
    ghost trace so that statements such as "the agent was never called" can
    be written down.

    Python integers are [Z]; rewards and scores are exact rationals [Q]
    (floating-point rounding is not modelled).

    The file has two parts.  The first holds the model: the objects, the
    monad, the methods of [Trainer] in source order, sessions of calls made
    one after the other, a small machine for worker threads whose calls
    overlap, the closed forms and example sessions the statements use, the
    shutdown with collaborators that fail, and a second machine that
    follows a worker statement by statement through its episode.
    The second part holds the properties: closed forms of every method,
    then one section per property of the specification, then further
    properties of the trainer and of the two data helpers of
    [src/mindpark/stats/stats.py], whose model closes the first part. *)

From Stdlib Require Import ZArith QArith List Bool String Lia.
Import ListNotations.
Open Scope Z_scope.

(** ** Objects handed to and created by the trainer *)

(** One entry of [self._preprocesses]: the tuple [(preprocess_cls, args,
    kwargs)].  Classes and argument values are opaque to the trainer and
    are represented by their names. *)
Record preprocess_spec := Preprocess {
  preprocess_cls : string;
  preprocess_args : list string;
  preprocess_kwargs : list (string * string)
}.

(** Environment objects.  [GymEnv id] is the object built by the [id]-th
    call of the [GymEnv] constructor; [Wrapped p inner] is the object
    returned by [preprocess(inner, *args, **kwargs)]. *)
Inductive env :=
| GymEnv (id : nat)
| Wrapped (p : preprocess_spec) (inner : env).

(** Agents are only ever called, never inspected. *)
Definition agent := nat.

Inductive lock_id :=
| SessionLock            (* self._lock *)
| EnvLock (e : env).     (* env.lock *)

(** Exceptions that travel through the trainer. *)
Inductive exn :=
| StopTraining                 (* class StopTraining(Exception) *)
| StopEpisode                  (* vizbot.core.StopEpisode *)
| RuntimeError (msg : string)
| ZeroDivisionError
| Fault (tag : nat).           (* any other exception of a collaborator *)

(** Ghost trace: one entry per call that leaves the trainer, plus the
    mutation of the score list and the entry into [_stop_training]. *)
Inductive event :=
| EnsureDirectory (d : string)
| NewGymEnv (id : nat) (name : string)
| NewPreprocess (p : preprocess_spec) (inner : env)
| Acquire (l : lock_id)
| Release (l : lock_id)
| NewExperience (maxlen : Z)
| ExperienceAppend
| ExperienceSave (episode : Z)
| AgentStart (a : agent)
| AgentStep (a : agent)
| AgentExperience (a : agent)
| AgentStop (a : agent)
| EnvReset (e : env)
| EnvStep (e : env)
| EnvClose (e : env)
| ScoresAppend (score : Q)
| Print (epoch timestep : Z) (average : Q)
| StopTrainingEntered
| SaveScores (scores : list Q).

(** ** Decidable equality of environments, used when counting closes *)

Definition preprocess_spec_eq_dec (p q : preprocess_spec) : {p = q} + {p <> q}.
Proof.
  decide equality;
    try apply (list_eq_dec (fun a b : string * string =>
       ltac:(decide equality; apply string_dec)));
    try apply (list_eq_dec string_dec); apply string_dec.
Defined.

Definition env_eq_dec (e1 e2 : env) : {e1 = e2} + {e1 <> e2}.
Proof.
  decide equality; [apply Nat.eq_dec | apply preprocess_spec_eq_dec].
Defined.

(** ** The Trainer object *)

Record trainer := Trainer {
  _directory : option string;
  _env_name : string;
  _timesteps : Z;
  _epoch_size : Z;
  _videos : Z;
  _experience : bool;
  _experience_maxlen : Z;
  _envs : list env;
  _preprocesses : list preprocess_spec;
  _scores : list Q;
  _epoch : Z;
  _episode : Z;
  _timestep : Z;
  _running : bool;
  (* ghost state *)
  next_env : nat;           (* identity of the next GymEnv object *)
  trace : list event        (* oldest event first *)
}.

Definition set_envs (v : list env) (t : trainer) : trainer :=
  Trainer (_directory t) (_env_name t) (_timesteps t) (_epoch_size t)
    (_videos t) (_experience t) (_experience_maxlen t) v (_preprocesses t)
    (_scores t) (_epoch t) (_episode t) (_timestep t) (_running t)
    (next_env t) (trace t).

Definition set_preprocesses (v : list preprocess_spec) (t : trainer) : trainer :=
  Trainer (_directory t) (_env_name t) (_timesteps t) (_epoch_size t)
    (_videos t) (_experience t) (_experience_maxlen t) (_envs t) v
    (_scores t) (_epoch t) (_episode t) (_timestep t) (_running t)
    (next_env t) (trace t).

Definition set_scores (v : list Q) (t : trainer) : trainer :=
  Trainer (_directory t) (_env_name t) (_timesteps t) (_epoch_size t)
    (_videos t) (_experience t) (_experience_maxlen t) (_envs t)
    (_preprocesses t) v (_epoch t) (_episode t) (_timestep t) (_running t)
    (next_env t) (trace t).

Definition set_epoch (v : Z) (t : trainer) : trainer :=
  Trainer (_directory t) (_env_name t) (_timesteps t) (_epoch_size t)
    (_videos t) (_experience t) (_experience_maxlen t) (_envs t)
    (_preprocesses t) (_scores t) v (_episode t) (_timestep t) (_running t)
    (next_env t) (trace t).

Definition set_episode (v : Z) (t : trainer) : trainer :=
  Trainer (_directory t) (_env_name t) (_timesteps t) (_epoch_size t)
    (_videos t) (_experience t) (_experience_maxlen t) (_envs t)
    (_preprocesses t) (_scores t) (_epoch t) v (_timestep t) (_running t)
    (next_env t) (trace t).

Definition set_timestep (v : Z) (t : trainer) : trainer :=
  Trainer (_directory t) (_env_name t) (_timesteps t) (_epoch_size t)
    (_videos t) (_experience t) (_experience_maxlen t) (_envs t)
    (_preprocesses t) (_scores t) (_epoch t) (_episode t) v (_running t)
    (next_env t) (trace t).

Definition set_running (v : bool) (t : trainer) : trainer :=
  Trainer (_directory t) (_env_name t) (_timesteps t) (_epoch_size t)
    (_videos t) (_experience t) (_experience_maxlen t) (_envs t)
    (_preprocesses t) (_scores t) (_epoch t) (_episode t) (_timestep t) v
    (next_env t) (trace t).

Definition set_next_env (v : nat) (t : trainer) : trainer :=
  Trainer (_directory t) (_env_name t) (_timesteps t) (_epoch_size t)
    (_videos t) (_experience t) (_experience_maxlen t) (_envs t)
    (_preprocesses t) (_scores t) (_epoch t) (_episode t) (_timestep t)
    (_running t) v (trace t).

Definition set_trace (v : list event) (t : trainer) : trainer :=
  Trainer (_directory t) (_env_name t) (_timesteps t) (_epoch_size t)
    (_videos t) (_experience t) (_experience_maxlen t) (_envs t)
    (_preprocesses t) (_scores t) (_epoch t) (_episode t) (_timestep t)
    (_running t) (next_env t) v.

(** ** State and exception monad

    A Python statement either finishes normally or raises; in both cases
    the mutations done so far stay. *)

Inductive result (A : Type) :=
| Returned (a : A)
| Raised (e : exn).
Arguments Returned {A} a.
Arguments Raised {A} e.

Definition M (A : Type) : Type := trainer -> result A * trainer.

Definition ret {A} (a : A) : M A := fun t => (Returned a, t).
Definition raise {A} (e : exn) : M A := fun t => (Raised e, t).
Definition bind {A B} (m : M A) (k : A -> M B) : M B :=
  fun t => match m t with
           | (Returned a, t') => k a t'
           | (Raised e, t') => (Raised e, t')
           end.
Definition get {A} (f : trainer -> A) : M A := fun t => (Returned (f t), t).
Definition modify (f : trainer -> trainer) : M unit := fun t => (Returned tt, f t).
Definition emit (e : event) : M unit :=
  modify (fun t => set_trace (trace t ++ [e]) t).

Declare Scope py_scope.
Delimit Scope py_scope with py.
Notation "x <- m ;; k" := (bind m (fun x => k))
  (at level 100, m at next level, right associativity) : py_scope.
Notation "m ;; k" := (bind m (fun _ => k))
  (at level 100, right associativity) : py_scope.
Open Scope py_scope.

(** [call e reply]: a call into a collaborator; it is traced, then it
    returns or raises as the collaborator decides. *)
Definition call (e : event) (reply : option exn) : M unit :=
  emit e ;;
  match reply with
  | None => ret tt
  | Some x => raise x
  end.

(** [with lock: body].  The lock is released on the way out whether the
    body returns or raises. *)
Definition with_lock {A} (l : lock_id) (body : M A) : M A :=
  fun t =>
    let '(_, t1) := emit (Acquire l) t in
    let '(r, t2) := body t1 in
    let '(_, t3) := emit (Release l) t2 in
    (r, t3).

(** [when c m] is [if c: m]. *)
Definition when (c : bool) (m : M unit) : M unit :=
  if c then m else ret tt.

Fixpoint for_each {A} (l : list A) (body : A -> M unit) : M unit :=
  match l with
  | [] => ret tt
  | x :: l' => body x ;; for_each l' body
  end.

(** ** Python helpers *)

(** Truthiness of [directory]: [None] and the empty string are false. *)
Definition truthy_directory (d : option string) : bool :=
  match d with
  | Some s => negb (String.eqb s EmptyString)
  | None => false
  end.

(** The slice [l[start:]] for an arbitrary integer [start]. *)
Definition slice_from {A} (start : Z) (l : list A) : list A :=
  let len := Z.of_nat (List.length l) in
  let s := if start <? 0 then Z.max (start + len) 0 else Z.min start len in
  skipn (Z.to_nat s) l.

(** [sum(l)]: left to right, starting from 0. *)
Definition sum (l : list Q) : Q := fold_left Qplus l 0%Q.

(** [sum(l) / len(l)]. *)
Definition average (l : list Q) : result Q :=
  match l with
  | [] => Raised ZeroDivisionError
  | _ => Returned (sum l / inject_Z (Z.of_nat (List.length l)))%Q
  end.

Definition lift {A} (r : result A) : M A := fun t => (r, t).

(** ** Trainer.__init__

    [epoch_size or timesteps // 100] takes the default when [epoch_size] is
    [None] or 0.  The attributes [_states] and [_actions] are set to [None]
    and never used again; they are left out, as is the lock object itself,
    whose use shows in the trace.  [experience_maxlen] is only handed on to
    the [Experience] constructor. *)

Definition init (directory : option string) (env_name : string)
    (timesteps : Z) (epoch_size : option Z) (videos : Z)
    (experience : bool) (experience_maxlen : Z) : trainer :=
  {| _directory := directory;
     _env_name := env_name;
     _timesteps := timesteps;
     _epoch_size :=
       match epoch_size with
       | Some e => if e =? 0 then timesteps / 100 else e
       | None => timesteps / 100
       end;
     _videos := videos;
     _experience := experience;
     _experience_maxlen := experience_maxlen;
     _envs := [];
     _preprocesses := [];
     _scores := [];
     _epoch := 0;
     _episode := 0;
     _timestep := 0;
     _running := true;
     next_env := 0%nat;
     trace :=
       match directory with
       | Some d => if truthy_directory directory then [EnsureDirectory d] else []
       | None => []
       end |}.

(** ** The properties running, episode, timestep and scores

    The read-only properties of the class are the projections [_running],
    [_episode], [_timestep] and [_scores]. *)

(** ** Trainer.add_preprocess *)

Definition add_preprocess (p : preprocess_spec) : M unit :=
  envs <- get _envs ;;
  match envs with
  | _ :: _ => raise (RuntimeError "must add preprocesses before creating envs")
  | [] => modify (fun t => set_preprocesses (_preprocesses t ++ [p]) t)
  end.

(** ** Trainer.create_env

    The registration [self._envs.append(env)] is the last statement of the
    loop body. *)

Fixpoint create_env_loop (ps : list preprocess_spec) (e : env) : M env :=
  match ps with
  | [] => ret e
  | p :: ps' =>
      emit (NewPreprocess p e) ;;
      let e' := Wrapped p e in
      modify (fun t => set_envs (_envs t ++ [e']) t) ;;
      create_env_loop ps' e'
  end.

Definition create_env : M env :=
  id <- get next_env ;;
  name <- get _env_name ;;
  modify (set_next_env (S id)) ;;
  emit (NewGymEnv id name) ;;
  ps <- get _preprocesses ;;
  create_env_loop ps (GymEnv id).

(** ** What the collaborators do during one episode

    The agent and the environment are not part of the trainer.  An
    [episode_script] fixes their behaviour for one call of [_run_episode]:
    which calls return, which rewards [env.step] hands back, and which call
    raises what.  The loop of [_run_episode] is [while True], so an episode
    that comes to an end does so through an exception raised inside the
    loop (or by [env.reset]); [Experience.append] is taken not to raise. *)

Inductive site :=
| AtAgentStep          (* action = agent.step(state) *)
| AtEnvStep            (* successor, reward = env.step(action) *)
| AtAgentExperience.   (* agent.experience( *transition) *)

Record episode_script := Script {
  on_start : option exn;   (* agent.start() raises? *)
  on_reset : option exn;   (* env.reset() raises? *)
  rewards : list Q;        (* rewards of the iterations that ran to their end *)
  last_site : site;        (* the call that raises in the last iteration *)
  last_exn : exn;          (* ... and what it raises *)
  on_stop : option exn;    (* agent.stop() raises? *)
  on_save : option exn     (* experience.save(...) raises? *)
}.

(** ** Trainer._run_episode *)

Definition recording (t : trainer) : bool :=
  truthy_directory (_directory t) && _experience t.

(** The iterations of the [while True] loop that run to their end. *)
Fixpoint episode_loop (e : env) (a : agent) (rec : bool) (rs : list Q)
    (score : Q) : M Q :=
  match rs with
  | [] => ret score
  | reward :: rs' =>
      emit (AgentStep a) ;;
      emit (EnvStep e) ;;
      emit (AgentExperience a) ;;
      when rec (emit ExperienceAppend) ;;
      let score := (score + reward)%Q in
      modify (fun t => set_timestep (_timestep t + 1) t) ;;
      episode_loop e a rec rs' score
  end.

(** The iteration in which a call raises: the calls made up to and
    including the raising one. *)
Definition last_iteration (e : env) (a : agent) (s : site) : M unit :=
  match s with
  | AtAgentStep => emit (AgentStep a)
  | AtEnvStep => emit (AgentStep a) ;; emit (EnvStep e)
  | AtAgentExperience =>
      emit (AgentStep a) ;; emit (EnvStep e) ;; emit (AgentExperience a)
  end.

(** The [try] block with its handler.  The local [score] survives the
    handler, so the block hands it back when [StopEpisode] was caught; any
    other exception propagates.  The completed iterations raise nothing, so
    the block is left either by [env.reset] raising or by the last
    iteration. *)
Definition episode_try (e : env) (a : agent) (rec : bool)
    (s : episode_script) : M Q :=
  fun t =>
    let '(_, t1) := emit (EnvReset e) t in
    let '(score, x, t3) :=
      match on_reset s with
      | Some x => (0%Q, x, t1)
      | None =>
          match episode_loop e a rec (rewards s) 0%Q t1 with
          | (Returned score, t2) =>
              (score, last_exn s, snd (last_iteration e a (last_site s) t2))
          | (Raised x, t2) => (0%Q, x, t2)
          end
      end in
    match x with
    | StopEpisode => (Returned score, t3)
    | _ => (Raised x, t3)
    end.

Definition _run_episode (e : env) (a : agent) (episode : Z)
    (s : episode_script) : M Q :=
  rec <- get recording ;;
  when rec (maxlen <- get _experience_maxlen ;; emit (NewExperience maxlen)) ;;
  call (AgentStart a) (on_start s) ;;
  score <- episode_try e a rec s ;;
  call (AgentStop a) (on_stop s) ;;
  when rec (call (ExperienceSave episode) (on_save s)) ;;
  ret score.

(** ** Trainer._next_epoch, _store_scores, _stop_training, _video_callback

    [np.save] and [env.close()] are taken to return here; the shutdown in
    which they may raise is written out further down, as
    [_stop_training_with]. *)

Definition _next_epoch : M unit :=
  modify (fun t => set_epoch (_epoch t + 1) t) ;;
  score <- get (fun t => slice_from (- _epoch_size t) (_scores t)) ;;
  score <- lift (average score) ;;
  epoch <- get _epoch ;;
  timestep <- get _timestep ;;
  emit (Print epoch timestep score).

Definition _store_scores : M unit :=
  directory <- get _directory ;;
  when (truthy_directory directory)
    (scores <- get _scores ;; emit (SaveScores scores)).

Definition _stop_training : M unit :=
  emit StopTrainingEntered ;;
  modify (set_running false) ;;
  envs <- get _envs ;;
  for_each envs (fun e => with_lock (EnvLock e) (emit (EnvClose e))) ;;
  _store_scores.

Definition _video_callback (env_episode : Z) (t : trainer) : bool :=
  if _videos t =? 0 then false
  else _episode t mod _videos t =? 0.

(** ** Trainer.run_episode, statement by statement *)

(** [if not self._running: raise StopTraining(self)] *)
Definition check_running : M unit :=
  running <- get _running ;;
  if negb running then raise StopTraining else ret tt.

(** First [with self._lock:] block. *)
Definition allocate_episode : M Z :=
  with_lock SessionLock
    (episode <- get _episode ;;
     modify (set_episode (episode + 1)) ;;
     ret episode).

(** [with env.lock: score = self._run_episode(env, agent, episode)] *)
Definition locked_episode (a : agent) (e : env) (episode : Z)
    (s : episode_script) : M Q :=
  with_lock (EnvLock e) (_run_episode e a episode s).

(** [self._scores.append(score)] *)
Definition append_score (score : Q) : M unit :=
  modify (fun t => set_scores (_scores t ++ [score]) t) ;;
  emit (ScoresAppend score).

(** Second [with self._lock:] block. *)
Definition epoch_and_stop_checks : M unit :=
  with_lock SessionLock
    (epoch_end <- get (fun t => (_epoch t + 1) * _epoch_size t) ;;
     running <- get _running ;;
     timestep <- get _timestep ;;
     when (running && (timestep >=? epoch_end)) _next_epoch ;;
     timestep <- get _timestep ;;
     timesteps <- get _timesteps ;;
     when (timestep >=? timesteps) _stop_training).

Definition run_episode (a : agent) (e : env) (s : episode_script) : M unit :=
  check_running ;;
  episode <- allocate_episode ;;
  score <- locked_episode a e episode s ;;
  append_score score ;;
  epoch_and_stop_checks.

(** ** Sessions: calls made one after the other *)

Record request := Request {
  req_agent : agent;
  req_env : env;
  req_script : episode_script
}.

(** The caller catches whatever a call raises and goes on with the next
    one; the outcomes are collected in call order. *)
Fixpoint session (calls : list request) (t : trainer)
    : list (result unit) * trainer :=
  match calls with
  | [] => ([], t)
  | c :: calls' =>
      let '(r, t1) := run_episode (req_agent c) (req_env c) (req_script c) t in
      let '(rs, t2) := session calls' t1 in
      (r :: rs, t2)
  end.

(** ** Worker threads: calls that overlap

    Threads switch between the statements of [run_episode]; each [with]
    block is taken as one atomic step, which for the two session-lock blocks
    is what the lock enforces.  Every schedule of this machine is an
    execution of the program, so it serves to exhibit interleavings. *)

Inductive pc :=
| AtCheck
| AtAllocate
| AtEpisode (episode : Z)
| AtAppend (score : Q)
| AtChecks
| Finished (r : result unit).

Record thread := Thread {
  th_agent : agent;
  th_env : env;
  th_script : episode_script;
  th_pc : pc
}.

Definition at_pc (th : thread) (p : pc) : thread :=
  Thread (th_agent th) (th_env th) (th_script th) p.

Definition advance {A} (th : thread) (r : result A * trainer)
    (next : A -> pc) : thread * trainer :=
  match r with
  | (Returned a, t) => (at_pc th (next a), t)
  | (Raised x, t) => (at_pc th (Finished (Raised x)), t)
  end.

Definition thread_step (th : thread) (t : trainer) : thread * trainer :=
  match th_pc th with
  | AtCheck => advance th (check_running t) (fun _ => AtAllocate)
  | AtAllocate => advance th (allocate_episode t) AtEpisode
  | AtEpisode episode =>
      advance th
        (locked_episode (th_agent th) (th_env th) episode (th_script th) t)
        AtAppend
  | AtAppend score => advance th (append_score score t) (fun _ => AtChecks)
  | AtChecks =>
      advance th (epoch_and_stop_checks t) (fun _ => Finished (Returned tt))
  | Finished _ => (th, t)
  end.

Fixpoint update_nth {A} (n : nat) (x : A) (l : list A) : list A :=
  match n, l with
  | _, [] => []
  | O, _ :: l' => x :: l'
  | S n', y :: l' => y :: update_nth n' x l'
  end.

(** One step of the thread chosen by the scheduler. *)
Definition machine_step (i : nat) (m : list thread * trainer)
    : list thread * trainer :=
  match nth_error (fst m) i with
  | Some th =>
      let '(th', t') := thread_step th (snd m) in
      (update_nth i th' (fst m), t')
  | None => m
  end.

Definition run_schedule (schedule : list nat) (m : list thread * trainer)
    : list thread * trainer :=
  fold_left (fun m i => machine_step i m) schedule m.

Definition spawn (c : request) : thread :=
  Thread (req_agent c) (req_env c) (req_script c) AtCheck.

(** ** Reading traces *)

Definition is_stop_entry (ev : event) : bool :=
  match ev with StopTrainingEntered => true | _ => false end.

Definition is_close_of (e : env) (ev : event) : bool :=
  match ev with
  | EnvClose e' => if env_eq_dec e e' then true else false
  | _ => false
  end.

Definition is_save_scores (ev : event) : bool :=
  match ev with SaveScores _ => true | _ => false end.

Definition is_print (ev : event) : bool :=
  match ev with Print _ _ _ => true | _ => false end.

Definition is_agent_stop (ev : event) : bool :=
  match ev with AgentStop _ => true | _ => false end.

Definition count (p : event -> bool) (tr : list event) : nat :=
  List.length (filter p tr).

(** The number of score appends made while [self._lock] was not held.
    [held] says whether the lock is held at the start of the trace. *)
Fixpoint appends_outside_lock (held : bool) (tr : list event) : nat :=
  match tr with
  | [] => 0
  | Acquire SessionLock :: tr' => appends_outside_lock true tr'
  | Release SessionLock :: tr' => appends_outside_lock false tr'
  | ScoresAppend _ :: tr' =>
      ((if held then 0 else 1) + appends_outside_lock held tr')%nat
  | _ :: tr' => appends_outside_lock held tr'
  end.

(** ** What one call leaves behind, written out

    Closed forms of the traces and results of the methods above; the
    lemmas of the next part show that the methods compute exactly these. *)

Definition iteration_events (e : env) (a : agent) (rec : bool) : list event :=
  [AgentStep a; EnvStep e; AgentExperience a]
  ++ (if rec then [ExperienceAppend] else []).

Definition loop_events (e : env) (a : agent) (rec : bool) (rs : list Q)
    : list event :=
  flat_map (fun _ => iteration_events e a rec) rs.

Definition last_events (e : env) (a : agent) (s : site) : list event :=
  match s with
  | AtAgentStep => [AgentStep a]
  | AtEnvStep => [AgentStep a; EnvStep e]
  | AtAgentExperience => [AgentStep a; EnvStep e; AgentExperience a]
  end.

(** The exception that ends the [try] block. *)
Definition try_exn (s : episode_script) : exn :=
  match on_reset s with
  | Some x => x
  | None => last_exn s
  end.

(** The rewards handed out before the [try] block ends. *)
Definition try_rewards (s : episode_script) : list Q :=
  match on_reset s with
  | Some _ => []
  | None => rewards s
  end.

Definition try_events (e : env) (a : agent) (rec : bool) (s : episode_script)
    : list event :=
  EnvReset e ::
  match on_reset s with
  | Some _ => []
  | None => loop_events e a rec (rewards s) ++ last_events e a (last_site s)
  end.

(** The interaction steps an episode performs: none when [agent.start]
    raises, otherwise those of the [try] block. *)
Definition performed (s : episode_script) : list Q :=
  match on_start s with
  | Some _ => []
  | None => try_rewards s
  end.

Definition steps (s : episode_script) : Z := Z.of_nat (List.length (performed s)).

Definition after_try_events (a : agent) (rec : bool) (episode : Z)
    (s : episode_script) : list event :=
  match try_exn s with
  | StopEpisode =>
      AgentStop a ::
      match on_stop s with
      | Some _ => []
      | None => if rec then [ExperienceSave episode] else []
      end
  | _ => []
  end.

Definition episode_events (e : env) (a : agent) (rec : bool) (maxlen : Z)
    (episode : Z) (s : episode_script) : list event :=
  (if rec then [NewExperience maxlen] else [])
  ++ AgentStart a ::
     match on_start s with
     | Some _ => []
     | None => try_events e a rec s ++ after_try_events a rec episode s
     end.

Definition episode_result (rec : bool) (s : episode_script) : result Q :=
  match on_start s with
  | Some x => Raised x
  | None =>
      match try_exn s with
      | StopEpisode =>
          match on_stop s with
          | Some y => Raised y
          | None =>
              match (if rec then on_save s else None) with
              | Some z => Raised z
              | None => Returned (sum (try_rewards s))
              end
          end
      | x => Raised x
      end
  end.

(** An episode completes when it ends through [StopEpisode] and neither
    the notifications around the loop nor the saving of the experience
    raise. *)
Definition completes (rec : bool) (s : episode_script) : bool :=
  match on_start s, try_exn s, on_stop s, (if rec then on_save s else None) with
  | None, StopEpisode, None, None => true
  | _, _, _, _ => false
  end.

Definition close_events (envs : list env) : list event :=
  flat_map (fun e => [Acquire (EnvLock e); EnvClose e; Release (EnvLock e)]) envs.

Definition store_events (t : trainer) : list event :=
  if truthy_directory (_directory t) then [SaveScores (_scores t)] else [].

Definition stop_events (t : trainer) : list event :=
  StopTrainingEntered :: close_events (_envs t) ++ store_events t.

(** The last [n] entries of [l], fewer if [l] has fewer: the averaging
    window in the words of the specification. *)
Definition last_entries {A} (n : nat) (l : list A) : list A :=
  rev (firstn n (rev l)).

(** The events a trace gained between two states. *)
Definition gained (t t' : trainer) : list event :=
  skipn (List.length (trace t)) (trace t').

(** [with_steps n evs t]: [t] after [n] more time steps and the events
    [evs]. *)
Definition with_steps (n : Z) (evs : list event) (t : trainer) : trainer :=
  set_timestep (_timestep t + n) (set_trace (trace t ++ evs) t).

(** The state in which a call leaves the trainer once the environment lock
    is released, whether the episode returned a score or raised. *)
Definition after_episode (a : agent) (e : env) (s : episode_script)
    (t : trainer) : trainer :=
  set_episode (_episode t + 1)
    (with_steps (steps s)
       ([Acquire SessionLock; Release SessionLock; Acquire (EnvLock e)]
        ++ episode_events e a (recording t) (_experience_maxlen t)
             (_episode t) s
        ++ [Release (EnvLock e)]) t).

(** The state in which a call enters its second session-lock block. *)
Definition before_checks (a : agent) (e : env) (s : episode_script)
    (score : Q) (t : trainer) : trainer :=
  let t1 := after_episode a e s t in
  set_scores (_scores t1 ++ [score]) (with_steps 0 [ScoresAppend score] t1).

(** The two conditions tested in the second session-lock block. *)
Definition epoch_due (t : trainer) : bool :=
  _running t && (_timestep t >=? (_epoch t + 1) * _epoch_size t).

Definition budget_spent (t : trainer) : bool :=
  _timestep t >=? _timesteps t.

(** The steps of a list of calls, added up. *)
Definition total_steps (calls : list request) : Z :=
  fold_right (fun c acc => steps (req_script c) + acc) 0 calls.

(** ** Concrete sessions used as examples *)

(** An episode of the given rewards that ends when [env.step] raises
    [StopEpisode]. *)
Definition stopping (rs : list Q) : episode_script :=
  Script None None rs AtEnvStep StopEpisode None None.

(** An episode in which [env.step] fails after the given rewards. *)
Definition crashing (rs : list Q) : episode_script :=
  Script None None rs AtEnvStep (Fault 1) None None.

Definition grayscale : preprocess_spec := Preprocess "Grayscale" [] [].

(** [Trainer('results', 'Pong-v0', 100, epoch_size=50, videos=3)] *)
Definition pong : trainer :=
  init (Some "results"%string) "Pong-v0" 100 (Some 50) 3 false 50000.

(** [Trainer('results', 'Pong-v0', 2, epoch_size=1)]: a budget of two
    steps. *)
Definition short_pong : trainer :=
  init (Some "results"%string) "Pong-v0" 2 (Some 1) 0 false 50000.

(** The trainer [short_pong] after one call that spent its budget. *)
Definition stopped_pong : trainer :=
  snd (run_episode 0%nat (GymEnv 0) (stopping [1; 1]%Q) short_pong).

(** The report and the shutdown made by the second session-lock block of a
    call that enters it in state [t]. *)
Definition report_events (t : trainer) : list event :=
  if epoch_due t then
    match average (slice_from (- _epoch_size t) (_scores t)) with
    | Returned avg => [Print (_epoch t + 1) (_timestep t) avg]
    | Raised _ => []
    end
  else [].

(** The report divides by zero when its window is empty; the block is then
    left before the budget is looked at. *)
Definition report_fails (t : trainer) : bool :=
  epoch_due t &&
  match average (slice_from (- _epoch_size t) (_scores t)) with
  | Returned _ => false
  | Raised _ => true
  end.

Definition shuts_down (t : trainer) : bool :=
  negb (report_fails t) && budget_spent t.

Definition shutdown_events (t : trainer) : list event :=
  if shuts_down t then stop_events t else [].

Definition checks_events (t : trainer) : list event :=
  Acquire SessionLock
  :: report_events t ++ shutdown_events t ++ [Release SessionLock].

(** For each call of a session that is let in, the id its episode is given
    and what [_video_callback] answers once that id is allocated, which is
    when the episode runs. *)
Fixpoint video_flags (calls : list request) (t : trainer) : list (Z * bool) :=
  match calls with
  | [] => []
  | c :: calls' =>
      (if _running t
       then [(_episode t,
              _video_callback (_episode t) (snd (allocate_episode t)))]
       else [])
      ++ video_flags calls'
           (snd (run_episode (req_agent c) (req_env c) (req_script c) t))
  end.

Definition is_scores_append (ev : event) : bool :=
  match ev with ScoresAppend _ => true | _ => false end.

(** [run_episode] up to the point where it is about to enter its second
    session-lock block. *)
Definition entering_checks (a : agent) (e : env) (s : episode_script) : M unit :=
  check_running ;;
  episode <- allocate_episode ;;
  score <- locked_episode a e episode s ;;
  append_score score.

(** [short_pong] when its first call, an episode of one step, is about to
    enter its second session-lock block. *)
Definition checking_pong : trainer :=
  snd (entering_checks 0%nat (GymEnv 0) (stopping [1]%Q) short_pong).

(** [Trainer('results', 'Pong-v0', 50)]: the epoch size defaults to
    [50 // 100 = 0]. *)
Definition tiny_pong : trainer :=
  init (Some "results"%string) "Pong-v0" 50 None 0 false 50000.

(** [tiny_pong] after an episode of score 1, when a second episode of
    score 3 is about to enter its second session-lock block. *)
Definition tiny_pong_checking : trainer :=
  snd (entering_checks 0%nat (GymEnv 0) (stopping [3]%Q)
         (snd (run_episode 0%nat (GymEnv 0) (stopping [1]%Q) tiny_pong))).

(** Two workers on [short_pong], each with its own environment. *)
Definition two_workers : list thread :=
  [spawn (Request 0%nat (GymEnv 0) (stopping [1; 1]%Q));
   spawn (Request 1%nat (GymEnv 1) (stopping [1]%Q))].

(** Both workers pass the running check, get their ids and run their
    episodes; the first then finishes its call. *)
Definition first_worker_done : list nat := [0; 1; 0; 1; 0; 1; 0; 0]%nat.

(** [short_pong] when the second worker, having appended its score, is about
    to enter its second session-lock block after the first worker has shut
    the session down. *)
Definition late_checking_pong : trainer :=
  snd (run_schedule (first_worker_done ++ [1%nat]) (two_workers, short_pong)).

(** [short_pong] with one preprocessor and two environments built. *)
Definition build_two : M (env * env) :=
  add_preprocess grayscale ;;
  e1 <- create_env ;;
  e2 <- create_env ;;
  ret (e1, e2).

Definition wrapped_pong : trainer := snd (build_two short_pong).

Definition first_env : env := Wrapped grayscale (GymEnv 0).
Definition second_env : env := Wrapped grayscale (GymEnv 1).

Definition wrapped_workers : list thread :=
  [spawn (Request 0%nat first_env (stopping [1; 1]%Q));
   spawn (Request 1%nat second_env (stopping [1]%Q))].

(** The schedule [first_worker_done] followed by the rest of the second
    worker's call. *)
Definition overlapping : list nat := first_worker_done ++ [1; 1]%nat.

(** The same two calls made one after the other. *)
Definition one_after_the_other : list nat := [0; 0; 0; 0; 0; 1; 1; 1; 1; 1]%nat.

(** [short_pong], which has no preprocessor, after [create_env]. *)
Definition bare_pong : trainer := snd (create_env short_pong).

(** The events an episode can leave in the trace. *)
Definition is_episode_event (ev : event) : bool :=
  match ev with
  | NewExperience _ | ExperienceAppend | ExperienceSave _
  | AgentStart _ | AgentStep _ | AgentExperience _ | AgentStop _
  | EnvReset _ | EnvStep _ => true
  | _ => false
  end.

(** The objects built by the loop of [create_env]: the wrappers in the
    order they are made, and the outermost one, which is returned. *)
Fixpoint wrappers (ps : list preprocess_spec) (e : env) : list env :=
  match ps with
  | [] => []
  | p :: ps' => Wrapped p e :: wrappers ps' (Wrapped p e)
  end.

Definition wrap_all (ps : list preprocess_spec) (e : env) : env :=
  fold_left (fun e p => Wrapped p e) ps e.

Fixpoint wrap_events (ps : list preprocess_spec) (e : env) : list event :=
  match ps with
  | [] => []
  | p :: ps' => NewPreprocess p e :: wrap_events ps' (Wrapped p e)
  end.

Definition sharpen : preprocess_spec := Preprocess "Sharpen" [] [].

(** [short_pong] with two preprocessors and one environment built. *)
Definition twice_wrapped_pong : trainer :=
  snd ((add_preprocess grayscale ;; add_preprocess sharpen ;; create_env)
         short_pong).

(** ** Further readings of traces and sessions *)

(** Everything one call of [run_episode] adds to the trace. *)
Definition call_events (a : agent) (e : env) (s : episode_script)
    (t : trainer) : list event :=
  if _running t then
    [Acquire SessionLock; Release SessionLock; Acquire (EnvLock e)]
    ++ episode_events e a (recording t) (_experience_maxlen t) (_episode t) s
    ++ Release (EnvLock e)
       :: match episode_result (recording t) s with
          | Returned score =>
              ScoresAppend score
              :: checks_events (before_checks a e s score t)
          | Raised _ => []
          end
  else [].

Definition lock_id_eq_dec (l1 l2 : lock_id) : {l1 = l2} + {l1 <> l2}.
Proof. decide equality. apply env_eq_dec. Defined.

(** Replays the lock events of a trace against the locks held so far,
    innermost first.  The locks are not reentrant: taking a lock that is
    already held, or releasing one that is not the innermost held, gives
    [None]; otherwise the locks held at the end are returned. *)
Fixpoint replay_locks (held : list lock_id) (tr : list event)
    : option (list lock_id) :=
  match tr with
  | [] => Some held
  | Acquire l :: tr' =>
      if in_dec lock_id_eq_dec l held then None
      else replay_locks (l :: held) tr'
  | Release l :: tr' =>
      match held with
      | l' :: held' =>
          if lock_id_eq_dec l l' then replay_locks held' tr' else None
      | [] => None
      end
  | _ :: tr' => replay_locks held tr'
  end.

Definition is_lock_event (ev : event) : bool :=
  match ev with Acquire _ | Release _ => true | _ => false end.

(** Events that write to or prepare the results directory. *)
Definition is_persistence_event (ev : event) : bool :=
  match ev with
  | EnsureDirectory _ | NewExperience _ | ExperienceAppend
  | ExperienceSave _ | SaveScores _ => true
  | _ => false
  end.

Definition is_experience_event (ev : event) : bool :=
  match ev with
  | NewExperience _ | ExperienceAppend | ExperienceSave _ => true
  | _ => false
  end.

Definition is_env_reset (ev : event) : bool :=
  match ev with EnvReset _ => true | _ => false end.

(** The score a call appends when its episode completes. *)
Definition score_of (c : request) : Q := sum (performed (req_script c)).

(** The ids handed out along a schedule, in the order of allocation: an id
    is recorded whenever a step takes a worker from [AtAllocate] to
    [AtEpisode id]. *)
Fixpoint allocated (schedule : list nat) (m : list thread * trainer)
    : list Z :=
  match schedule with
  | [] => []
  | i :: schedule' =>
      match nth_error (fst m) i with
      | Some th =>
          match th_pc th, th_pc (fst (thread_step th (snd m))) with
          | AtAllocate, AtEpisode id => [id]
          | _, _ => []
          end
      | None => []
      end
      ++ allocated schedule' (machine_step i m)
  end.

(** [n] consecutive integers from [first] on. *)
Definition consecutive (first : Z) (n : nat) : list Z :=
  map (fun k => first + Z.of_nat k) (seq 0 n).

(** [Trainer(None, 'Pong-v0', 2, epoch_size=1, experience=True)]: a dry
    run that asks for experience to be stored. *)
Definition dry_pong : trainer := init None "Pong-v0" 2 (Some 1) 0 true 50000.

(** [Trainer('results', 'Pong-v0', 2, epoch_size=1, experience=True)] *)
Definition recording_pong : trainer :=
  init (Some "results"%string) "Pong-v0" 2 (Some 1) 0 true 50000.

(** An episode whose [agent.start()] raises [StopEpisode]. *)
Definition stopping_at_start : episode_script :=
  Script (Some StopEpisode) None [1; 1]%Q AtEnvStep StopEpisode None None.

(** [Trainer('results', 'Pong-v0', 1, epoch_size=-1)] *)
Definition backwards_pong : trainer :=
  init (Some "results"%string) "Pong-v0" 1 (Some (-1)) 0 false 50000.

(** ** The shutdown when a collaborator fails

    [_stop_training] and [_store_scores] above take [env.close()] and
    [np.save] to return.  Either may raise: a device that cannot be
    released, a disk that is full.  A [shutdown_script] fixes what they do
    during one run of [_stop_training], as an [episode_script] does for an
    episode, and the methods are written once more with the two calls
    allowed to raise.  An exception of [env.close()] leaves the loop over
    the registry, so the environments behind the failing one are not
    closed and the scores are not stored; the [with env.lock:] around the
    call still releases the lock. *)

Record shutdown_script := Shutdown {
  on_close : list (option exn);  (* the i-th env.close() raises?  none said: returns *)
  on_store : option exn          (* np.save(...) raises? *)
}.

(** The shutdown in which nothing raises. *)
Definition quiet : shutdown_script := Shutdown [] None.

(** [for env in self._envs: with env.lock: env.close()] *)
Fixpoint close_all (envs : list env) (replies : list (option exn)) : M unit :=
  match envs with
  | [] => ret tt
  | e :: envs' =>
      with_lock (EnvLock e) (call (EnvClose e) (hd None replies)) ;;
      close_all envs' (tl replies)
  end.

Definition _store_scores_with (reply : option exn) : M unit :=
  directory <- get _directory ;;
  when (truthy_directory directory)
    (scores <- get _scores ;; call (SaveScores scores) reply).

Definition _stop_training_with (sh : shutdown_script) : M unit :=
  emit StopTrainingEntered ;;
  modify (set_running false) ;;
  envs <- get _envs ;;
  close_all envs (on_close sh) ;;
  _store_scores_with (on_store sh).

(** Second [with self._lock:] block and [run_episode], with the shutdown
    they may lead to allowed to fail. *)
Definition epoch_and_stop_checks_with (sh : shutdown_script) : M unit :=
  with_lock SessionLock
    (epoch_end <- get (fun t => (_epoch t + 1) * _epoch_size t) ;;
     running <- get _running ;;
     timestep <- get _timestep ;;
     when (running && (timestep >=? epoch_end)) _next_epoch ;;
     timestep <- get _timestep ;;
     timesteps <- get _timesteps ;;
     when (timestep >=? timesteps) (_stop_training_with sh)).

Definition run_episode_with (sh : shutdown_script) (a : agent) (e : env)
    (s : episode_script) : M unit :=
  check_running ;;
  episode <- allocate_episode ;;
  score <- locked_episode a e episode s ;;
  append_score score ;;
  epoch_and_stop_checks_with sh.

(** Closed forms: the exception of the first [env.close()] that raises,
    and the events of the loop up to and including that call. *)
Fixpoint close_all_failure (envs : list env) (replies : list (option exn))
    : option exn :=
  match envs with
  | [] => None
  | _ :: envs' =>
      match hd None replies with
      | Some x => Some x
      | None => close_all_failure envs' (tl replies)
      end
  end.

Fixpoint close_all_events (envs : list env) (replies : list (option exn))
    : list event :=
  match envs with
  | [] => []
  | e :: envs' =>
      Acquire (EnvLock e) :: EnvClose e :: Release (EnvLock e)
      :: match hd None replies with
         | Some _ => []
         | None => close_all_events envs' (tl replies)
         end
  end.

Definition reply_result (reply : option exn) : result unit :=
  match reply with
  | Some x => Raised x
  | None => Returned tt
  end.

Definition stop_result (sh : shutdown_script) (t : trainer) : result unit :=
  match close_all_failure (_envs t) (on_close sh) with
  | Some x => Raised x
  | None =>
      if truthy_directory (_directory t) then reply_result (on_store sh)
      else Returned tt
  end.

Definition stop_events_with (sh : shutdown_script) (t : trainer) : list event :=
  StopTrainingEntered
  :: close_all_events (_envs t) (on_close sh)
  ++ match close_all_failure (_envs t) (on_close sh) with
     | Some _ => []
     | None => store_events t
     end.

Definition checks_events_with (sh : shutdown_script) (t : trainer)
    : list event :=
  Acquire SessionLock
  :: report_events t
  ++ (if shuts_down t then stop_events_with sh t else [])
  ++ [Release SessionLock].

(** [env.close()] is an event of any environment. *)
Definition is_close (ev : event) : bool :=
  match ev with EnvClose _ => true | _ => false end.

(** A shutdown in which the first [env.close()] fails, and one in which
    every [env.close()] returns and [np.save] fails. *)
Definition failing_first_close : shutdown_script :=
  Shutdown [Some (Fault 7)] None.

Definition disk_full : shutdown_script := Shutdown [] (Some (Fault 8)).

(** ** Worker threads, statement by statement inside the episode

    The machine above takes a whole [with env.lock:] block as one step.
    Two workers hold the locks of two different environments, so their
    episodes overlap, and nothing orders line 116 of one against line 116
    of the other.  [self._timestep += 1] reads the attribute, adds one and
    stores the result; the machine below makes the read and the store two
    steps.  The calls into agent and environment that lie between two
    accesses of the trainer are taken as one step.  A worker waits for an
    environment lock that another worker holds; so that no worker waits in
    the middle of a step, the second session-lock block is entered, when
    it is going to shut the session down, only once no registered
    environment is in use.  Every schedule of this machine is an execution
    of the program. *)

Inductive fine_pc :=
| FCheck                          (* line 85 *)
| FAllocate                       (* lines 87-89 *)
| FEnter (episode : Z)            (* line 90 and lines 101-104 *)
| FReset (episode : Z)            (* line 106 *)
| FIterate (episode : Z) (rest : list Q) (score : Q)           (* lines 108-115 *)
| FLoad (episode : Z) (rest : list Q) (score : Q)              (* line 116, read *)
| FStore (episode : Z) (rest : list Q) (score : Q) (read : Z)  (* line 116, store *)
| FAfter (episode : Z) (score : Q)                             (* lines 119-123 *)
| FAppend (score : Q)             (* line 92 *)
| FChecks                         (* lines 93-98 *)
| FFinished (r : result unit).

Record worker := Worker {
  wk_agent : agent;
  wk_env : env;
  wk_script : episode_script;
  wk_pc : fine_pc
}.

Definition wk_at (w : worker) (p : fine_pc) : worker :=
  Worker (wk_agent w) (wk_env w) (wk_script w) p.

Definition in_use (e : env) (busy : list env) : bool :=
  if in_dec env_eq_dec e busy then true else false.

(** The end of [with env.lock:], on the way out of the episode. *)
Definition leave_env (w : worker) (p : fine_pc) (t : trainer)
    (busy : list env) : worker * trainer * list env :=
  (wk_at w p, snd (emit (Release (EnvLock (wk_env w))) t),
   remove env_eq_dec (wk_env w) busy).

Definition fine_step (w : worker) (t : trainer) (busy : list env)
    : worker * trainer * list env :=
  let a := wk_agent w in
  let e := wk_env w in
  let s := wk_script w in
  match wk_pc w with
  | FCheck =>
      match check_running t with
      | (Returned _, t') => (wk_at w FAllocate, t', busy)
      | (Raised x, t') => (wk_at w (FFinished (Raised x)), t', busy)
      end
  | FAllocate =>
      match allocate_episode t with
      | (Returned episode, t') => (wk_at w (FEnter episode), t', busy)
      | (Raised x, t') => (wk_at w (FFinished (Raised x)), t', busy)
      end
  | FEnter episode =>
      if in_use e busy then (w, t, busy)
      else
        match (emit (Acquire (EnvLock e)) ;;
               rec <- get recording ;;
               when rec (maxlen <- get _experience_maxlen ;;
                         emit (NewExperience maxlen)) ;;
               call (AgentStart a) (on_start s)) t with
        | (Returned _, t') => (wk_at w (FReset episode), t', e :: busy)
        | (Raised x, t') => leave_env w (FFinished (Raised x)) t' (e :: busy)
        end
  | FReset episode =>
      match call (EnvReset e) (on_reset s) t with
      | (Returned _, t') => (wk_at w (FIterate episode (rewards s) 0%Q), t', busy)
      | (Raised StopEpisode, t') => (wk_at w (FAfter episode 0%Q), t', busy)
      | (Raised x, t') => leave_env w (FFinished (Raised x)) t' busy
      end
  | FIterate episode rest score =>
      match rest with
      | reward :: rest' =>
          match (emit (AgentStep a) ;;
                 emit (EnvStep e) ;;
                 emit (AgentExperience a) ;;
                 rec <- get recording ;;
                 when rec (emit ExperienceAppend)) t with
          | (_, t') => (wk_at w (FLoad episode rest' (score + reward)%Q), t', busy)
          end
      | [] =>
          let t' := snd (last_iteration e a (last_site s) t) in
          match last_exn s with
          | StopEpisode => (wk_at w (FAfter episode score), t', busy)
          | x => leave_env w (FFinished (Raised x)) t' busy
          end
      end
  | FLoad episode rest score =>
      (wk_at w (FStore episode rest score (_timestep t)), t, busy)
  | FStore episode rest score read =>
      (wk_at w (FIterate episode rest score), set_timestep (read + 1) t, busy)
  | FAfter episode score =>
      match (call (AgentStop a) (on_stop s) ;;
             rec <- get recording ;;
             when rec (call (ExperienceSave episode) (on_save s))) t with
      | (Returned _, t') => leave_env w (FAppend score) t' busy
      | (Raised x, t') => leave_env w (FFinished (Raised x)) t' busy
      end
  | FAppend score => (wk_at w FChecks, snd (append_score score t), busy)
  | FChecks =>
      if budget_spent t && existsb (fun e' => in_use e' busy) (_envs t)
      then (w, t, busy)
      else
        match epoch_and_stop_checks t with
        | (r, t') => (wk_at w (FFinished r), t', busy)
        end
  | FFinished _ => (w, t, busy)
  end.

Record fine_machine := FineMachine {
  workers : list worker;
  shared : trainer;
  busy_envs : list env      (* the environments whose lock is held *)
}.

(** One step of the worker chosen by the scheduler. *)
Definition fine_machine_step (i : nat) (m : fine_machine) : fine_machine :=
  match nth_error (workers m) i with
  | Some w =>
      match fine_step w (shared m) (busy_envs m) with
      | (w', t', busy') => FineMachine (update_nth i w' (workers m)) t' busy'
      end
  | None => m
  end.

Definition run_fine (schedule : list nat) (m : fine_machine) : fine_machine :=
  fold_left (fun m i => fine_machine_step i m) schedule m.

Definition enter (c : request) : worker :=
  Worker (req_agent c) (req_env c) (req_script c) FCheck.

Definition fine_start (calls : list request) (t : trainer) : fine_machine :=
  FineMachine (map enter calls) t [].

(** Two calls on [pong], each on its own environment: an episode of one
    step and an episode of two steps. *)
Definition racing_calls : list request :=
  [Request 0%nat (GymEnv 0) (stopping [1]%Q);
   Request 1%nat (GymEnv 1) (stopping [1; 1]%Q)].

(** Both workers come to line 116 of their first iteration; both read the
    counter before either stores it; then each finishes its call. *)
Definition both_read_first : list nat :=
  [0; 0; 0; 0; 0; 1; 1; 1; 1; 1]%nat       (* up to line 116 *)
  ++ [0; 1; 0; 1]%nat                      (* read, read, store, store *)
  ++ [0; 0; 0; 0]%nat                      (* worker 0 finishes *)
  ++ [1; 1; 1; 1; 1; 1; 1]%nat.            (* worker 1: second step, finishes *)

(** Worker 0 reads the counter; worker 1 then runs both its steps. *)
Definition read_then_wait : list nat :=
  [0; 0; 0; 0; 0; 0]%nat ++ [1; 1; 1; 1; 1; 1; 1; 1; 1; 1]%nat.

(** A worker that runs alone: [fuel] steps of the one worker. *)
Fixpoint solo (fuel : nat) (w : worker) (t : trainer) (busy : list env)
    : worker * trainer * list env :=
  match fuel with
  | O => (w, t, busy)
  | S fuel' =>
      match fine_step w t busy with
      | (w', t', busy') => solo fuel' w' t' busy'
      end
  end.

Definition runs_to (w : worker) (t : trainer) (busy : list env)
    (w' : worker) (t' : trainer) (busy' : list env) : Prop :=
  exists fuel, solo fuel w t busy = (w', t', busy').

(** * mindpark.stats.stats: selecting and grouping statistics

    The parts of [src/mindpark/stats/stats.py] that compute on plain data:
    [Metrics._select_metrics] and [Metrics._aggregate].  The rest of the
    class draws with matplotlib or reads a database and is not modelled. *)

(** [KeyError(message)] *)
Inductive stats_exn :=
| KeyError (msg : string).

Inductive checked (A : Type) :=
| Fine (a : A)
| Failed (x : stats_exn).
Arguments Fine {A} a.
Arguments Failed {A} x.

(** The object state of [Metrics]: [__init__] stores its two arguments. *)
Record metrics := Metrics {
  _type : string;
  _metrics : option (list string)
}.

(** [needle in hay] for two strings. *)
Fixpoint contains (needle hay : string) : bool :=
  String.prefix needle hay
  || match hay with
     | EmptyString => false
     | String _ hay' => contains needle hay'
     end.

(** A dictionary with string keys, as the list of its items in iteration
    order; [tables[key]] is [lookup key tables]. *)
Fixpoint lookup {T} (key : string) (tables : list (string * T)) : option T :=
  match tables with
  | [] => None
  | (k, v) :: tables' => if String.eqb k key then Some v else lookup key tables'
  end.

(** [[x for x in tables.keys() if metric in x]] *)
Definition matching {T} (metric : string) (tables : list (string * T))
    : list string :=
  filter (contains metric) (map fst tables).

(** The loop of [_select_metrics] over [self._metrics]. *)
Fixpoint select_loop {T} (ms : list string) (tables : list (string * T))
    (selected : list (string * T)) : checked (list (string * T)) :=
  match ms with
  | [] => Fine selected
  | metric :: ms' =>
      match matching metric tables with
      | [] => Failed (KeyError ("found no metric for '" ++ metric ++ "'"))
      | _ :: _ :: _ =>
          Failed (KeyError ("found multiple metric for '" ++ metric ++ "'"))
      | [name] =>
          match lookup name tables with
          | Some table => select_loop ms' tables (selected ++ [(name, table)])
          | None => Failed (KeyError name)
          end
      end
  end.

(** [Metrics._select_metrics].  [natural_sorted] is defined in
    [mindpark.utility], outside the sources at hand, and is taken as a
    parameter; it is applied to [tables.items()] when no metrics were
    asked for ([None] or an empty list). *)
Definition _select_metrics {T}
    (natural_sorted : list (string * T) -> list (string * T))
    (self : metrics) (tables : list (string * T))
    : checked (list (string * T)) :=
  match _metrics self with
  | None | Some [] => Fine (natural_sorted tables)
  | Some ms => select_loop ms tables []
  end.

(** The slice [l[start:stop]] for arbitrary integers: negative indices
    count from the end, and indices are clamped to the list. *)
Definition slice {A} (start stop : Z) (l : list A) : list A :=
  let len := Z.of_nat (List.length l) in
  let clamp i := if i <? 0 then Z.max (i + len) 0 else Z.min i len in
  firstn (Z.to_nat (clamp stop - clamp start)) (skipn (Z.to_nat (clamp start)) l).

(** [Metrics._aggregate]: [zip(borders[:-1], borders[1:])] pairs each
    border with the next one; the reducer is applied to the slice between
    them. *)
Definition _aggregate {A B} (values : list A) (borders : list Z)
    (reducer : list A -> B) : list B :=
  fold_left
    (fun groups '(start, stop) => groups ++ [reducer (slice start stop values)])
    (combine (removelast borders) (tl borders))
    [].

(** Borders that do not decrease and lie within a list of length [len]. *)
Fixpoint ascending (lo : Z) (borders : list Z) (hi : Z) : Prop :=
  match borders with
  | [] => lo <= hi
  | b :: borders' => lo <= b /\ ascending b borders' hi
  end.

(** A dictionary of four statistics tables. *)
Definition four_tables : list (string * nat) :=
  [("score"%string, 1%nat); ("score_max"%string, 2%nat);
   ("loss"%string, 3%nat); ("epsilon"%string, 4%nat)].

(** * Properties *)

(** ** Proof tools *)

(** Normalises setters applied to a trainer given by its fields. *)
Ltac fields :=
  cbv beta iota delta
    [set_envs set_preprocesses set_scores set_epoch set_episode set_timestep
     set_running set_next_env set_trace with_steps
     _directory _env_name _timesteps _epoch_size _videos _experience
     _experience_maxlen _envs _preprocesses _scores _epoch _episode _timestep
     _running next_env trace recording store_events stop_events gained
     before_checks after_episode].

(** Brings concatenations of events into right-nested form. *)
Ltac lists :=
  repeat first [ rewrite <- app_assoc | rewrite app_nil_r | progress cbn [app] ].

(** Closes an equation between two states that differ in how their
    counters and traces are written. *)
Ltac same_state :=
  fields; lists; rewrite ?Z.add_0_r; try reflexivity;
  repeat f_equal; try lia.

(** Unfolds the monad's plumbing. *)
Ltac plumbing :=
  cbv beta iota delta
    [bind ret raise get modify emit call when lift with_lock].

(** ** The monad and the loop *)

Lemma with_steps_nil (t : trainer) : with_steps 0 [] t = t.
Proof.
  destruct t; fields. now rewrite Z.add_0_r, app_nil_r.
Qed.

Lemma with_steps_with_steps (n m : Z) (evs evs' : list event) (t : trainer) :
  with_steps m evs' (with_steps n evs t) = with_steps (n + m) (evs ++ evs') t.
Proof.
  destruct t; fields. now rewrite Z.add_assoc, app_assoc.
Qed.

Lemma emit_eq (ev : event) (t : trainer) :
  emit ev t = (Returned tt, with_steps 0 [ev] t).
Proof. destruct t; plumbing; same_state. Qed.

Lemma episode_loop_eq (e : env) (a : agent) (rec : bool) (rs : list Q) :
  forall (score : Q) (t : trainer),
    episode_loop e a rec rs score t
    = (Returned (fold_left Qplus rs score),
       with_steps (Z.of_nat (List.length rs)) (loop_events e a rec rs) t).
Proof.
  induction rs as [|reward rs IH]; intros score t.
  - cbn. now rewrite with_steps_nil.
  - cbn [episode_loop fold_left].
    destruct t, rec; plumbing; fields; rewrite IH; fields;
      cbn [loop_events flat_map iteration_events List.length app];
      repeat rewrite <- app_assoc; cbn [app];
      do 2 f_equal; lia.
Qed.

(** ** Closed forms of the methods *)

Lemma episode_try_eq (e : env) (a : agent) (rec : bool) (s : episode_script)
    (t : trainer) :
  episode_try e a rec s t
  = (match try_exn s with
     | StopEpisode => Returned (sum (try_rewards s))
     | x => Raised x
     end,
     with_steps (Z.of_nat (List.length (try_rewards s))) (try_events e a rec s) t).
Proof.
  unfold episode_try, try_exn, try_rewards, try_events.
  destruct (on_reset s) as [x|].
  - destruct t; plumbing; fields; rewrite Z.add_0_r; now destruct x.
  - destruct t; plumbing; fields. rewrite episode_loop_eq.
    destruct (last_site s); cbn [last_iteration last_events];
      plumbing; fields; cbn [snd]; repeat rewrite <- app_assoc; cbn [app];
      now destruct (last_exn s).
Qed.

Lemma _run_episode_eq (e : env) (a : agent) (episode : Z) (s : episode_script)
    (t : trainer) :
  _run_episode e a episode s t
  = (episode_result (recording t) s,
     with_steps (steps s)
       (episode_events e a (recording t) (_experience_maxlen t) episode s) t).
Proof.
  unfold _run_episode, episode_result, episode_events, after_try_events,
    steps, performed.
  destruct t as [d n ts es v ex ml envs ps sc ep epi tm r ne tr].
  unfold bind at 1, get. fields.
  set (rec := (truthy_directory d && ex)%bool).
  destruct (on_start s) as [x|].
  - destruct rec; plumbing; fields; cbn [List.length Z.of_nat];
      rewrite Z.add_0_r; repeat rewrite <- app_assoc; reflexivity.
  - assert (Htry := fun u => episode_try_eq e a rec s u).
    destruct rec; plumbing; fields; rewrite Htry; fields;
      destruct (try_exn s); lists; try reflexivity;
      try (destruct (on_stop s); [ | destruct (on_save s)]);
      fields; lists; reflexivity.
Qed.

Lemma with_lock_emit_eq (l : lock_id) (ev : event) (t : trainer) :
  with_lock l (emit ev) t
  = (Returned tt, with_steps 0 [Acquire l; ev; Release l] t).
Proof. destruct t; plumbing; same_state. Qed.

Lemma for_each_close_eq (envs : list env) (t : trainer) :
  for_each envs (fun e => with_lock (EnvLock e) (emit (EnvClose e))) t
  = (Returned tt, with_steps 0 (close_events envs) t).
Proof.
  revert t. induction envs as [|e envs IH]; intro t.
  - cbn. unfold ret. now rewrite with_steps_nil.
  - cbn [for_each]. unfold bind at 1.
    rewrite with_lock_emit_eq, IH, with_steps_with_steps. reflexivity.
Qed.

Lemma _store_scores_eq (t : trainer) :
  _store_scores t = (Returned tt, with_steps 0 (store_events t) t).
Proof.
  unfold _store_scores. destruct t; plumbing; fields.
  destruct (truthy_directory _); plumbing; same_state.
Qed.

Lemma _stop_training_eq (t : trainer) :
  _stop_training t
  = (Returned tt, set_running false (with_steps 0 (stop_events t) t)).
Proof.
  unfold _stop_training.
  unfold bind at 1. unfold emit at 1, modify at 1.
  unfold bind at 1. unfold modify at 1.
  unfold bind at 1. unfold get at 1.
  unfold bind at 1.
  rewrite for_each_close_eq, _store_scores_eq.
  destruct t; same_state.
Qed.

Lemma _next_epoch_eq (t : trainer) :
  _next_epoch t
  = match average (slice_from (- _epoch_size t) (_scores t)) with
    | Returned avg =>
        (Returned tt,
         set_epoch (_epoch t + 1)
           (with_steps 0 [Print (_epoch t + 1) (_timestep t) avg] t))
    | Raised x => (Raised x, set_epoch (_epoch t + 1) t)
    end.
Proof.
  unfold _next_epoch. destruct t; plumbing; fields.
  destruct (average _); same_state.
Qed.

(** ** Closed forms of the statements of run_episode *)

Lemma check_running_eq (t : trainer) :
  check_running t
  = (if _running t then Returned tt else Raised StopTraining, t).
Proof. unfold check_running; plumbing. now destruct (_running t). Qed.

Lemma allocate_episode_eq (t : trainer) :
  allocate_episode t
  = (Returned (_episode t),
     set_episode (_episode t + 1)
       (with_steps 0 [Acquire SessionLock; Release SessionLock] t)).
Proof. unfold allocate_episode. destruct t; plumbing; same_state. Qed.

Lemma locked_episode_eq (a : agent) (e : env) (episode : Z)
    (s : episode_script) (t : trainer) :
  locked_episode a e episode s t
  = (episode_result (recording t) s,
     with_steps (steps s)
       (Acquire (EnvLock e)
        :: episode_events e a (recording t) (_experience_maxlen t) episode s
        ++ [Release (EnvLock e)]) t).
Proof.
  unfold locked_episode, with_lock.
  rewrite emit_eq, _run_episode_eq, emit_eq.
  destruct t; same_state.
Qed.

Lemma append_score_eq (score : Q) (t : trainer) :
  append_score score t
  = (Returned tt,
     set_scores (_scores t ++ [score]) (with_steps 0 [ScoresAppend score] t)).
Proof. unfold append_score. destruct t; plumbing; same_state. Qed.

Lemma bind_get {A B} (f : trainer -> A) (k : A -> M B) (t : trainer) :
  (x <- get f ;; k x) t = k (f t) t.
Proof. reflexivity. Qed.

Lemma epoch_and_stop_checks_eq (t : trainer) :
  epoch_and_stop_checks t
  = let t1 := with_steps 0 [Acquire SessionLock] t in
    let '(r, t2) :=
      if epoch_due t then _next_epoch t1 else (Returned tt, t1) in
    let '(r', t3) :=
      match r with
      | Returned _ =>
          if budget_spent t then _stop_training t2 else (Returned tt, t2)
      | Raised x => (Raised x, t2)
      end in
    (r', with_steps 0 [Release SessionLock] t3).
Proof.
  unfold epoch_and_stop_checks, with_lock. rewrite emit_eq.
  cbv zeta. set (t1 := with_steps 0 [Acquire SessionLock] t).
  rewrite bind_get, bind_get, bind_get.
  replace (_running t1 && (_timestep t1 >=? (_epoch t1 + 1) * _epoch_size t1))%bool
    with (epoch_due t) by (subst t1; destruct t; fields; now rewrite ?Z.add_0_r).
  assert (Hstop : forall u, _timestep u = _timestep t -> _timesteps u = _timesteps t ->
     (timestep <- get _timestep ;; timesteps <- get _timesteps ;;
      when (timestep >=? timesteps) _stop_training) u
     = if budget_spent t then _stop_training u else (Returned tt, u)).
  { intros u H1 H2. rewrite !bind_get, H1, H2. unfold budget_spent.
    now destruct (_timestep t >=? _timesteps t). }
  unfold bind at 1.
  destruct (epoch_due t); cbn [when].
  - rewrite _next_epoch_eq.
    destruct (average _) as [avg|x].
    + rewrite Hstop by (subst t1; destruct t; fields; now rewrite ?Z.add_0_r).
      destruct (budget_spent t).
      * rewrite _stop_training_eq, emit_eq. reflexivity.
      * rewrite emit_eq. reflexivity.
    + rewrite emit_eq. reflexivity.
  - unfold ret at 1. rewrite Hstop by (subst t1; destruct t; fields; now rewrite ?Z.add_0_r).
    destruct (budget_spent t).
    + rewrite _stop_training_eq, emit_eq. reflexivity.
    + rewrite emit_eq. reflexivity.
Qed.

Lemma run_episode_eq (a : agent) (e : env) (s : episode_script) (t : trainer) :
  run_episode a e s t
  = if _running t then
      match episode_result (recording t) s with
      | Returned score => epoch_and_stop_checks (before_checks a e s score t)
      | Raised x => (Raised x, after_episode a e s t)
      end
    else (Raised StopTraining, t).
Proof.
  unfold run_episode.
  unfold bind at 1. rewrite check_running_eq.
  destruct (_running t) eqn:Hrun; [ | reflexivity ].
  unfold bind at 1. rewrite allocate_episode_eq.
  unfold bind at 1. rewrite locked_episode_eq.
  replace (recording (set_episode _ _)) with (recording t)
    by (destruct t; reflexivity).
  replace (_experience_maxlen (set_episode _ _)) with (_experience_maxlen t)
    by (destruct t; reflexivity).
  destruct (episode_result (recording t) s) as [score|x].
  - unfold bind at 1. rewrite append_score_eq. f_equal.
    unfold before_checks, after_episode. destruct t; same_state.
  - f_equal. unfold after_episode. destruct t; same_state.
Qed.

(** ** Reading the trace of a call *)

Lemma gained_with_steps (n : Z) (evs : list event) (t : trainer) :
  gained t (with_steps n evs t) = evs.
Proof.
  destruct t; fields.
  rewrite skipn_app, skipn_all, Nat.sub_diag. reflexivity.
Qed.

Lemma count_app (p : event -> bool) (l l' : list event) :
  count p (l ++ l') = (count p l + count p l')%nat.
Proof. unfold count. now rewrite filter_app, length_app. Qed.

Lemma count_loop_events (p : event -> bool) (e : env) (a : agent)
    (rec : bool) (rs : list Q) :
  p (AgentStep a) = false -> p (EnvStep e) = false ->
  p (AgentExperience a) = false -> p ExperienceAppend = false ->
  count p (loop_events e a rec rs) = 0%nat.
Proof.
  intros H1 H2 H3 H4. induction rs as [|r rs IH]; [reflexivity|].
  cbn [loop_events flat_map]. rewrite count_app. fold (loop_events e a rec rs).
  rewrite IH, Nat.add_0_r.
  unfold count, iteration_events. destruct rec; cbn; now rewrite H1, H2, H3, ?H4.
Qed.

Lemma count_last_events (p : event -> bool) (e : env) (a : agent) (s : site) :
  p (AgentStep a) = false -> p (EnvStep e) = false ->
  p (AgentExperience a) = false ->
  count p (last_events e a s) = 0%nat.
Proof.
  intros H1 H2 H3. unfold count.
  destruct s; cbn; now rewrite H1, ?H2, ?H3.
Qed.

(** The events of the [try] block contain no [agent.stop]. *)
Lemma try_events_no_agent_stop (e : env) (a : agent) (rec : bool)
    (s : episode_script) :
  count is_agent_stop (try_events e a rec s) = 0%nat.
Proof.
  unfold try_events. destruct (on_reset s); [reflexivity|].
  change (EnvReset e :: ?l) with ([EnvReset e] ++ l).
  now rewrite !count_app, count_loop_events, count_last_events.
Qed.

(** ** Calls made while the trainer is stopped *)

(** C3 (as amended): a call made while [running] is false raises
    [StopTraining] -- it is raised, not returned -- and leaves the trainer
    untouched: no counter changes and the trace gains no event, so neither
    the agent nor the environment is called. *)
Theorem run_episode_when_stopped (a : agent) (e : env) (s : episode_script)
    (t : trainer) :
  _running t = false ->
  run_episode a e s t = (Raised StopTraining, t)
  /\ gained t (snd (run_episode a e s t)) = [].
Proof.
  intro Hstopped. rewrite run_episode_eq, Hstopped. split; [reflexivity|].
  cbn [snd]. rewrite <- (with_steps_nil t) at 2. apply gained_with_steps.
Qed.

Lemma run_episode_when_stopped_witness :
  run_episode 1%nat (GymEnv 0) (stopping [1]%Q) stopped_pong
  = (Raised StopTraining, stopped_pong)
  /\ gained stopped_pong
       (snd (run_episode 1%nat (GymEnv 0) (stopping [1]%Q) stopped_pong)) = [].
Proof.
  apply run_episode_when_stopped. reflexivity.
Defined.

(** C3, as stated, asks for the signal to be an explicit result rather than
    a raised exception; on a stopped trainer the call returns no value at
    all. *)
Lemma stop_signal_is_raised_not_returned :
  _running stopped_pong = false
  /\ ~ exists v : unit,
       fst (run_episode 1%nat (GymEnv 0) (stopping [1]%Q) stopped_pong)
       = Returned v.
Proof.
  split; [reflexivity|].
  intros [v Hv]. vm_compute in Hv. discriminate Hv.
Qed.

(** ** What an episode returns *)

Lemma completes_result (rec : bool) (s : episode_script) :
  completes rec s = true ->
  episode_result rec s = Returned (sum (performed s))
  /\ on_start s = None /\ try_exn s = StopEpisode /\ on_stop s = None.
Proof.
  unfold completes, episode_result, performed.
  destruct (on_start s); [discriminate|].
  destruct (try_exn s); try discriminate.
  destruct (on_stop s); [discriminate|].
  destruct (if rec then on_save s else None); [discriminate|].
  intros _. repeat split.
Qed.

Lemma completed_episode_stops_agent_once (e : env) (a : agent) (rec : bool)
    (maxlen episode : Z) (s : episode_script) :
  completes rec s = true ->
  count is_agent_stop (episode_events e a rec maxlen episode s) = 1%nat.
Proof.
  intro Hc. destruct (completes_result _ _ Hc) as (_ & Hstart & Hexn & Hstop).
  unfold episode_events, after_try_events. rewrite Hstart, Hexn, Hstop.
  change (AgentStart a :: ?l) with ([AgentStart a] ++ l).
  change (AgentStop a :: ?l) with ([AgentStop a] ++ l).
  rewrite !count_app, try_events_no_agent_stop.
  now destruct rec.
Qed.

(** C4 (as amended): for every completed episode [_run_episode] returns
    the accumulated score alone, which is the sum of the per-step rewards;
    the step count is not part of the returned value but is what the shared
    time-step counter grew by, and the agent has been told once that the
    episode ended. *)
Theorem _run_episode_returns_score (e : env) (a : agent) (episode : Z)
    (s : episode_script) (t : trainer) :
  completes (recording t) s = true ->
  exists t',
    _run_episode e a episode s t = (Returned (sum (performed s)), t')
    /\ _timestep t' = _timestep t + Z.of_nat (List.length (performed s))
    /\ count is_agent_stop (gained t t') = 1%nat.
Proof.
  intro Hc. rewrite _run_episode_eq.
  destruct (completes_result _ _ Hc) as (Hres & _).
  rewrite Hres. eexists. split; [reflexivity|]. split.
  - destruct t; reflexivity.
  - rewrite gained_with_steps.
    now apply completed_episode_stops_agent_once.
Qed.

Lemma _run_episode_returns_score_witness :
  exists t',
    _run_episode (GymEnv 0) 0%nat 0 (stopping [1; 2; 3]%Q) pong
    = (Returned (sum (performed (stopping [1; 2; 3]%Q))), t')
    /\ _timestep t'
       = _timestep pong
         + Z.of_nat (List.length (performed (stopping [1; 2; 3]%Q)))
    /\ count is_agent_stop (gained pong t') = 1%nat.
Proof.
  apply _run_episode_returns_score. reflexivity.
Defined.

(** C4, as stated, has the runner return the step count next to the score.
    Two completed episodes of two steps and of one step return the same
    value, so nothing computed from the returned value is the step count. *)
Lemma returned_value_does_not_carry_steps :
  ~ exists steps_of : Q -> Z,
      forall (s : episode_script) (q : Q) (t' : trainer),
        completes (recording pong) s = true ->
        _run_episode (GymEnv 0) 0%nat 0 s pong = (Returned q, t') ->
        steps_of q = Z.of_nat (List.length (performed s)).
Proof.
  intros [steps_of H].
  assert (H2 := H (stopping [1; 1]%Q) _ _ eq_refl eq_refl).
  assert (H1 := H (stopping [2]%Q) _ _ eq_refl eq_refl).
  vm_compute in H1, H2. congruence.
Qed.

(** ** Faults inside an episode *)

Lemma faulty_episode_no_agent_stop (e : env) (a : agent) (rec : bool)
    (maxlen episode : Z) (s : episode_script) :
  on_start s = None -> try_exn s <> StopEpisode ->
  episode_result rec s = Raised (try_exn s)
  /\ count is_agent_stop (episode_events e a rec maxlen episode s) = 0%nat.
Proof.
  intros Hstart Hexn.
  unfold episode_result, episode_events, after_try_events. rewrite Hstart.
  change (AgentStart a :: ?l) with ([AgentStart a] ++ l).
  rewrite !count_app, try_events_no_agent_stop.
  destruct (try_exn s); try contradiction; now destruct rec.
Qed.

(** C10: a fault of the agent or the environment inside the [try] block
    (anything but [StopEpisode]) reaches the caller of [run_episode]; by
    then the episode id is consumed and the time-step counter has grown by
    the completed steps, while no score was appended, [agent.stop] was not
    called, and neither the epoch nor the running flag changed. *)
Theorem run_episode_fault_is_not_rolled_back (a : agent) (e : env)
    (s : episode_script) (t : trainer) :
  _running t = true ->
  on_start s = None ->
  try_exn s <> StopEpisode ->
  exists t',
    run_episode a e s t = (Raised (try_exn s), t')
    /\ _episode t' = _episode t + 1
    /\ _timestep t' = _timestep t + Z.of_nat (List.length (try_rewards s))
    /\ _scores t' = _scores t
    /\ count is_agent_stop (gained t t') = 0%nat
    /\ _epoch t' = _epoch t
    /\ _running t' = true.
Proof.
  intros Hrun Hstart Hexn. rewrite run_episode_eq, Hrun.
  destruct (faulty_episode_no_agent_stop e a (recording t)
              (_experience_maxlen t) (_episode t) s Hstart Hexn) as [Hres Hcount].
  rewrite Hres. eexists. split; [reflexivity|].
  unfold after_episode, steps, performed. rewrite Hstart.
  repeat split; try (destruct t; cbn in *; congruence).
  replace (gained t _)
    with ([Acquire SessionLock; Release SessionLock; Acquire (EnvLock e)]
          ++ episode_events e a (recording t) (_experience_maxlen t)
               (_episode t) s
          ++ [Release (EnvLock e)]).
  - rewrite !count_app, Hcount. reflexivity.
  - destruct t; fields. rewrite skipn_app, skipn_all, Nat.sub_diag.
    reflexivity.
Qed.

Lemma run_episode_fault_is_not_rolled_back_witness :
  exists t',
    run_episode 0%nat (GymEnv 0) (crashing [1; 1; 1]%Q) pong
    = (Raised (try_exn (crashing [1; 1; 1]%Q)), t')
    /\ _episode t' = _episode pong + 1
    /\ _timestep t'
       = _timestep pong
         + Z.of_nat (List.length (try_rewards (crashing [1; 1; 1]%Q)))
    /\ _scores t' = _scores pong
    /\ count is_agent_stop (gained pong t') = 0%nat
    /\ _epoch t' = _epoch pong
    /\ _running t' = true.
Proof.
  apply run_episode_fault_is_not_rolled_back;
    [reflexivity | reflexivity | discriminate].
Defined.

(** ** The time-step counter *)

(** The second session-lock block touches the epoch, the running flag and
    the trace, and nothing else. *)
Lemma epoch_and_stop_checks_frame (t : trainer) :
  let t' := snd (epoch_and_stop_checks t) in
  t' = set_epoch (_epoch t') (set_running (_running t') (set_trace (trace t') t)).
Proof.
  rewrite epoch_and_stop_checks_eq. cbv zeta.
  destruct (epoch_due t); [rewrite _next_epoch_eq; destruct (average _)|];
    try (destruct (budget_spent t); [rewrite _stop_training_eq|]);
    destruct t; cbn [snd]; same_state.
Qed.

Lemma run_episode_timestep (a : agent) (e : env) (s : episode_script)
    (t : trainer) :
  _timestep (snd (run_episode a e s t))
  = _timestep t + (if _running t then steps s else 0).
Proof.
  rewrite run_episode_eq. destruct (_running t); [|cbn; lia].
  destruct (episode_result (recording t) s) as [score|x].
  - rewrite epoch_and_stop_checks_frame.
    destruct (snd (epoch_and_stop_checks _)); destruct t; cbn [snd]; same_state.
  - destruct t; cbn [snd]; same_state.
Qed.

Lemma run_episode_returned_was_running (a : agent) (e : env)
    (s : episode_script) (t : trainer) :
  fst (run_episode a e s t) = Returned tt -> _running t = true.
Proof.
  rewrite run_episode_eq. destruct (_running t); [reflexivity|discriminate].
Qed.

Lemma steps_nonneg (s : episode_script) : 0 <= steps s.
Proof. unfold steps. lia. Qed.

Lemma session_cons (c : request) (calls : list request) (t : trainer) :
  session (c :: calls) t
  = (fst (run_episode (req_agent c) (req_env c) (req_script c) t)
       :: fst (session calls
                 (snd (run_episode (req_agent c) (req_env c) (req_script c) t))),
     snd (session calls
            (snd (run_episode (req_agent c) (req_env c) (req_script c) t)))).
Proof.
  cbn [session].
  destruct (run_episode _ _ _ t) as [r t1]. cbn [fst snd].
  now destruct (session calls t1).
Qed.

(** Calls made one after the other: after any such sequence of calls that
    all ran their episode to completion, the time-step counter has grown by
    the sum of the steps of those episodes (one per completed loop
    iteration, see [episode_loop_eq]); and whatever the calls do, it never
    decreases. *)
Theorem timestep_is_sum_of_steps (calls : list request) (t : trainer) :
  _timestep t <= _timestep (snd (session calls t))
  /\ (Forall (fun r => r = Returned tt) (fst (session calls t)) ->
      _timestep (snd (session calls t)) = _timestep t + total_steps calls).
Proof.
  revert t. induction calls as [|c calls IH]; intro t.
  - cbn. split; [lia|intros _; lia].
  - rewrite session_cons. cbn [fst snd total_steps fold_right].
    specialize (IH (snd (run_episode (req_agent c) (req_env c) (req_script c) t))).
    destruct IH as [IHle IHsum].
    pose proof (run_episode_timestep (req_agent c) (req_env c) (req_script c) t)
      as Hstep.
    pose proof (steps_nonneg (req_script c)).
    split.
    + destruct (_running t); lia.
    + intro Hall. inversion Hall as [|r rs Hr Hrs]; subst.
      apply run_episode_returned_was_running in Hr.
      rewrite Hr in Hstep. specialize (IHsum Hrs).
      fold (total_steps calls). lia.
Qed.

Lemma timestep_is_sum_of_steps_witness :
  let calls := [Request 0%nat (GymEnv 0) (stopping [1; 1; 1]%Q);
                Request 1%nat (GymEnv 1) (stopping [1; 1]%Q)] in
  Forall (fun r => r = Returned tt) (fst (session calls pong))
  /\ _timestep (snd (session calls pong)) = _timestep pong + total_steps calls.
Proof.
  intro calls.
  assert (Hall : Forall (fun r => r = Returned tt) (fst (session calls pong)))
    by (vm_compute; repeat constructor).
  split; [exact Hall|].
  exact (proj2 (timestep_is_sum_of_steps calls pong) Hall).
Defined.

(** ** Workers, statement by statement *)

Lemma runs_to_here (w : worker) (t t' : trainer) (busy busy' : list env) :
  t = t' -> busy = busy' -> runs_to w t busy w t' busy'.
Proof. intros -> ->. now exists 0%nat. Qed.

Lemma runs_to_step (w w1 w' : worker) (t t1 t' : trainer)
    (busy busy1 busy' : list env) :
  fine_step w t busy = (w1, t1, busy1) ->
  runs_to w1 t1 busy1 w' t' busy' ->
  runs_to w t busy w' t' busy'.
Proof.
  intros Hstep [n Hn]. exists (S n). cbn [solo]. now rewrite Hstep.
Qed.

Lemma runs_to_eq (w w' : worker) (t t' t'' : trainer)
    (busy busy' : list env) :
  runs_to w t busy w' t'' busy' -> t'' = t' -> runs_to w t busy w' t' busy'.
Proof. now intros H <-. Qed.

Lemma runs_to_from (w w' : worker) (t t0 t' : trainer)
    (busy busy' : list env) :
  t = t0 -> runs_to w t0 busy w' t' busy' -> runs_to w t busy w' t' busy'.
Proof. now intros ->. Qed.

Lemma solo_machine (fuel : nat) :
  forall (w : worker) (t : trainer) (busy : list env),
    run_fine (repeat 0%nat fuel) (FineMachine [w] t busy)
    = match solo fuel w t busy with
      | (w', t', busy') => FineMachine [w'] t' busy'
      end.
Proof.
  induction fuel as [|fuel IH]; intros w t busy; [reflexivity|].
  cbn [repeat run_fine fold_left solo].
  unfold fine_machine_step at 2. cbn [workers nth_error shared busy_envs].
  destruct (fine_step w t busy) as [[w1 t1] busy1].
  cbn [update_nth]. apply IH.
Qed.

Lemma step_check (a : agent) (e : env) (s : episode_script) (t : trainer)
    (busy : list env) :
  fine_step (Worker a e s FCheck) t busy
  = (Worker a e s (if _running t then FAllocate
                   else FFinished (Raised StopTraining)), t, busy).
Proof.
  unfold fine_step. cbn [wk_pc]. rewrite check_running_eq.
  now destruct (_running t).
Qed.

Lemma step_allocate (a : agent) (e : env) (s : episode_script) (t : trainer)
    (busy : list env) :
  fine_step (Worker a e s FAllocate) t busy
  = (Worker a e s (FEnter (_episode t)),
     set_episode (_episode t + 1)
       (with_steps 0 [Acquire SessionLock; Release SessionLock] t),
     busy).
Proof. unfold fine_step. cbn [wk_pc]. now rewrite allocate_episode_eq. Qed.

Lemma remove_only (e : env) : remove env_eq_dec e [e] = [].
Proof. cbn. now destruct (env_eq_dec e e). Qed.

Lemma step_enter (a : agent) (e : env) (s : episode_script) (episode : Z)
    (t : trainer) :
  fine_step (Worker a e s (FEnter episode)) t []
  = let evs :=
      Acquire (EnvLock e)
      :: (if recording t then [NewExperience (_experience_maxlen t)] else [])
      ++ [AgentStart a] in
    match on_start s with
    | None => (Worker a e s (FReset episode), with_steps 0 evs t, [e])
    | Some x =>
        (Worker a e s (FFinished (Raised x)),
         with_steps 0 (evs ++ [Release (EnvLock e)]) t, [])
    end.
Proof.
  unfold fine_step. cbn [wk_pc wk_agent wk_env wk_script in_use in_dec].
  unfold leave_env. cbn [wk_env]. rewrite remove_only. cbv zeta.
  destruct t as [d n ts es v ex ml envs ps sc ep epi tm r ne tr].
  destruct (on_start s) as [x|];
    plumbing; fields; destruct (truthy_directory d && ex)%bool;
    plumbing; fields; cbn [snd wk_at wk_agent wk_env wk_script];
    lists; rewrite ?Z.add_0_r; reflexivity.
Qed.

Lemma step_reset (a : agent) (e : env) (s : episode_script) (episode : Z)
    (t : trainer) (busy : list env) :
  fine_step (Worker a e s (FReset episode)) t busy
  = match on_reset s with
    | None =>
        (Worker a e s (FIterate episode (rewards s) 0%Q),
         with_steps 0 [EnvReset e] t, busy)
    | Some StopEpisode =>
        (Worker a e s (FAfter episode 0%Q), with_steps 0 [EnvReset e] t, busy)
    | Some x =>
        (Worker a e s (FFinished (Raised x)),
         with_steps 0 [EnvReset e; Release (EnvLock e)] t,
         remove env_eq_dec e busy)
    end.
Proof.
  unfold fine_step, leave_env. cbn [wk_pc wk_agent wk_env wk_script].
  destruct t as [d n ts es v ex ml envs ps sc ep epi tm r ne tr].
  destruct (on_reset s) as [[]|];
    plumbing; fields; cbn [snd wk_at wk_agent wk_env wk_script];
    lists; rewrite ?Z.add_0_r; reflexivity.
Qed.

Lemma step_iterate (a : agent) (e : env) (s : episode_script) (episode : Z)
    (reward : Q) (rest : list Q) (score : Q) (t : trainer) (busy : list env) :
  fine_step (Worker a e s (FIterate episode (reward :: rest) score)) t busy
  = (Worker a e s (FLoad episode rest (score + reward)%Q),
     with_steps 0 (iteration_events e a (recording t)) t, busy).
Proof.
  unfold fine_step. cbn [wk_pc wk_agent wk_env wk_script].
  destruct t as [d n ts es v ex ml envs ps sc ep epi tm r ne tr].
  unfold iteration_events.
  plumbing; fields; destruct (truthy_directory d && ex)%bool;
    plumbing; fields; cbn [snd wk_at wk_agent wk_env wk_script];
    lists; rewrite ?Z.add_0_r; reflexivity.
Qed.

Lemma step_last (a : agent) (e : env) (s : episode_script) (episode : Z)
    (score : Q) (t : trainer) (busy : list env) :
  fine_step (Worker a e s (FIterate episode [] score)) t busy
  = match last_exn s with
    | StopEpisode =>
        (Worker a e s (FAfter episode score),
         with_steps 0 (last_events e a (last_site s)) t, busy)
    | x =>
        (Worker a e s (FFinished (Raised x)),
         with_steps 0 (last_events e a (last_site s) ++ [Release (EnvLock e)]) t,
         remove env_eq_dec e busy)
    end.
Proof.
  unfold fine_step, leave_env. cbn [wk_pc wk_agent wk_env wk_script].
  destruct t as [d n ts es v ex ml envs ps sc ep epi tm r ne tr].
  destruct (last_exn s), (last_site s);
    cbn [last_iteration last_events];
    plumbing; fields; cbn [snd wk_at wk_agent wk_env wk_script];
    lists; rewrite ?Z.add_0_r; reflexivity.
Qed.

Lemma step_after (a : agent) (e : env) (s : episode_script) (episode : Z)
    (score : Q) (t : trainer) (busy : list env) :
  fine_step (Worker a e s (FAfter episode score)) t busy
  = (Worker a e s
       match on_stop s with
       | Some y => FFinished (Raised y)
       | None =>
           match (if recording t then on_save s else None) with
           | Some z => FFinished (Raised z)
           | None => FAppend score
           end
       end,
     with_steps 0
       (AgentStop a
        :: match on_stop s with
           | Some _ => []
           | None => if recording t then [ExperienceSave episode] else []
           end
        ++ [Release (EnvLock e)]) t,
     remove env_eq_dec e busy).
Proof.
  unfold fine_step, leave_env. cbn [wk_pc wk_agent wk_env wk_script].
  destruct t as [d n ts es v ex ml envs ps sc ep epi tm r ne tr].
  destruct (on_stop s) as [y|];
    plumbing; fields; [|destruct (truthy_directory d && ex)%bool;
                         [destruct (on_save s) as [z|]|]];
    plumbing; fields; cbn [snd wk_at wk_agent wk_env wk_script];
    lists; rewrite ?Z.add_0_r; reflexivity.
Qed.

Lemma step_append (a : agent) (e : env) (s : episode_script) (score : Q)
    (t : trainer) (busy : list env) :
  fine_step (Worker a e s (FAppend score)) t busy
  = (Worker a e s FChecks,
     set_scores (_scores t ++ [score]) (with_steps 0 [ScoresAppend score] t),
     busy).
Proof. unfold fine_step. cbn [wk_pc]. now rewrite append_score_eq. Qed.

Lemma nothing_in_use (envs : list env) :
  existsb (fun e' => in_use e' []) envs = false.
Proof. induction envs as [|e envs IH]; [reflexivity|exact IH]. Qed.

Lemma step_checks (a : agent) (e : env) (s : episode_script) (t : trainer) :
  fine_step (Worker a e s FChecks) t []
  = (Worker a e s (FFinished (fst (epoch_and_stop_checks t))),
     snd (epoch_and_stop_checks t), []).
Proof.
  unfold fine_step. cbn [wk_pc]. rewrite nothing_in_use, andb_false_r.
  now destruct (epoch_and_stop_checks t).
Qed.

(** The loop: three steps of the worker for every iteration that runs to
    its end. *)
Lemma solo_loop (a : agent) (e : env) (s : episode_script) (episode : Z)
    (rest : list Q) :
  forall (score : Q) (t : trainer) (busy : list env),
    runs_to (Worker a e s (FIterate episode rest score)) t busy
      (Worker a e s (FIterate episode [] (fold_left Qplus rest score)))
      (with_steps (Z.of_nat (List.length rest))
         (loop_events e a (recording t) rest) t)
      busy.
Proof.
  induction rest as [|reward rest IH]; intros score t busy.
  - cbn. rewrite with_steps_nil. now apply runs_to_here.
  - eapply runs_to_step; [apply step_iterate|].
    eapply runs_to_step; [reflexivity|].
    eapply runs_to_step; [reflexivity|].
    cbn [wk_at wk_agent wk_env wk_script fold_left].
    eapply runs_to_eq; [apply IH|].
    cbn [loop_events flat_map List.length]. fold (loop_events e a).
    destruct t; fields; lists. f_equal. lia.
Qed.

Lemma solo_add (n : nat) :
  forall (m : nat) (w : worker) (t : trainer) (busy : list env),
    solo (n + m) w t busy
    = match solo n w t busy with
      | (w1, t1, busy1) => solo m w1 t1 busy1
      end.
Proof.
  induction n as [|n IH]; intros m w t busy; [reflexivity|].
  cbn [Nat.add solo]. destruct (fine_step w t busy) as [[w1 t1] busy1].
  apply IH.
Qed.

Lemma runs_to_trans (w w1 w' : worker) (t t1 t' : trainer)
    (busy busy1 busy' : list env) :
  runs_to w t busy w1 t1 busy1 ->
  runs_to w1 t1 busy1 w' t' busy' ->
  runs_to w t busy w' t' busy'.
Proof.
  intros [n Hn] [m Hm]. exists (n + m)%nat. now rewrite solo_add, Hn.
Qed.

Lemma runs_to_next (w w' : worker) (t t' : trainer) (busy busy' : list env) :
  (match fine_step w t busy with
   | (w1, t1, busy1) => runs_to w1 t1 busy1 w' t' busy'
   end) ->
  runs_to w t busy w' t' busy'.
Proof.
  destruct (fine_step w t busy) as [[w1 t1] busy1] eqn:Hstep.
  now apply runs_to_step.
Qed.

Lemma runs_to_outcome (w : worker) (t : trainer) (busy busy' : list env)
    (a : agent) (e : env) (s : episode_script)
    (p q : result unit * trainer) :
  runs_to w t busy (Worker a e s (FFinished (fst p))) (snd p) busy' ->
  p = q ->
  runs_to w t busy (Worker a e s (FFinished (fst q))) (snd q) busy'.
Proof. now intros H <-. Qed.

(** From the end of the [try] block to the end of the call. *)
Lemma solo_after (a : agent) (e : env) (s : episode_script) (episode : Z)
    (score : Q) (t : trainer) :
  let left :=
    with_steps 0
      (AgentStop a
       :: match on_stop s with
          | Some _ => []
          | None => if recording t then [ExperienceSave episode] else []
          end
       ++ [Release (EnvLock e)]) t in
  let outcome :=
    match on_stop s with
    | Some y => (Raised y, left)
    | None =>
        match (if recording t then on_save s else None) with
        | Some z => (Raised z, left)
        | None =>
            epoch_and_stop_checks
              (set_scores (_scores left ++ [score])
                 (with_steps 0 [ScoresAppend score] left))
        end
    end in
  runs_to (Worker a e s (FAfter episode score)) t [e]
    (Worker a e s (FFinished (fst outcome))) (snd outcome) [].
Proof.
  cbv zeta.
  eapply runs_to_step; [apply step_after|]. rewrite remove_only.
  destruct (on_stop s) as [y|]; [now apply runs_to_here|].
  destruct (if recording t then on_save s else None) as [z|];
    [now apply runs_to_here|].
  eapply runs_to_step; [apply step_append|].
  eapply runs_to_step; [apply step_checks|].
  now apply runs_to_here.
Qed.

(** A worker that is never interrupted does what [run_episode] does: the
    statement-level machine and the method agree on the result of the call
    and on the state it leaves. *)
Lemma solo_run_episode (a : agent) (e : env) (s : episode_script)
    (t : trainer) :
  runs_to (Worker a e s FCheck) t []
    (Worker a e s (FFinished (fst (run_episode a e s t))))
    (snd (run_episode a e s t)) [].
Proof.
  rewrite run_episode_eq.
  eapply runs_to_step; [apply step_check|].
  destruct (_running t) eqn:Hrun; [|now apply runs_to_here].
  eapply runs_to_step; [apply step_allocate|].
  apply runs_to_next. rewrite step_enter. cbv zeta.
  unfold before_checks, after_episode, episode_result, episode_events,
    try_events, after_try_events, steps, performed, try_exn, try_rewards.
  cbv zeta.
  destruct (on_start s) as [x|].
  { cbn [fst snd]. apply runs_to_here; [|reflexivity].
    destruct t; same_state. }
  apply runs_to_next. rewrite step_reset.
  assert (Hafter : forall (score : Q) (u : trainer) (q : result unit * trainer),
    (let left :=
       with_steps 0
         (AgentStop a
          :: match on_stop s with
             | Some _ => []
             | None => if recording u then [ExperienceSave (_episode t)] else []
             end
          ++ [Release (EnvLock e)]) u in
     match on_stop s with
     | Some y => (Raised y, left)
     | None =>
         match (if recording u then on_save s else None) with
         | Some z => (Raised z, left)
         | None =>
             epoch_and_stop_checks
               (set_scores (_scores left ++ [score])
                  (with_steps 0 [ScoresAppend score] left))
         end
     end) = q ->
    runs_to (Worker a e s (FAfter (_episode t) score)) u [e]
      (Worker a e s (FFinished (fst q))) (snd q) []).
  { intros score u q Hq. eapply runs_to_outcome; [|exact Hq].
    apply solo_after. }
  destruct (on_reset s) as [x|].
  - destruct x.
    2:{ apply Hafter. cbv zeta. clear Hafter Hrun.
        destruct t as [d n ts es v ex ml envs ps sc ep epi tm r ne tr].
        fields.
        destruct (on_stop s) as [y|];
          [|destruct (truthy_directory d && ex)%bool;
            [destruct (on_save s) as [z|]|]];
          f_equal; same_state. }
    all: rewrite remove_only; cbn [fst snd]; apply runs_to_here;
      [destruct t; same_state|reflexivity].
  - eapply runs_to_trans; [apply solo_loop|].
    apply runs_to_next. rewrite step_last.
    destruct (last_exn s).
    2:{ apply Hafter. cbv zeta. clear Hafter Hrun.
        destruct t as [d n ts es v ex ml envs ps sc ep epi tm r ne tr].
        fields.
        destruct (on_stop s) as [y|];
          [|destruct (truthy_directory d && ex)%bool;
            [destruct (on_save s) as [z|]|]];
          f_equal; same_state. }
    all: rewrite remove_only; cbn [fst snd]; apply runs_to_here;
      [destruct t; same_state|reflexivity].
Qed.

(** On the machine: a schedule that runs one worker alone ends with the
    result and the state of [run_episode]. *)
Lemma solo_worker_is_run_episode (c : request) (t : trainer) :
  exists fuel,
    run_fine (repeat 0%nat fuel) (fine_start [c] t)
    = FineMachine
        [Worker (req_agent c) (req_env c) (req_script c)
           (FFinished (fst (run_episode (req_agent c) (req_env c)
                              (req_script c) t)))]
        (snd (run_episode (req_agent c) (req_env c) (req_script c) t)) [].
Proof.
  destruct (solo_run_episode (req_agent c) (req_env c) (req_script c) t)
    as [fuel Hfuel].
  exists fuel. unfold fine_start, enter. cbn [map].
  now rewrite solo_machine, Hfuel.
Qed.

(** C6: the counter does not add up when calls overlap.  Line 116,
    [self._timestep += 1], runs with only the worker's own environment lock
    held, so two workers on two environments execute it at the same time.
    In the first schedule both workers read the counter before either
    stores it: both calls complete and return, the three steps of their
    episodes were performed, and the counter stands at 2.  In the second
    schedule a worker stores a value it read before the other worker's two
    steps: both environment locks are held, worker 0 stands before the
    store with the value 0 it read, and its store takes the counter from 2
    back to 1.  The same two calls made one after the other leave the
    counter at 3. *)
Theorem unlocked_timestep_update_is_lost :
  (let m := run_fine both_read_first (fine_start racing_calls pong) in
   map wk_pc (workers m) = [FFinished (Returned tt); FFinished (Returned tt)]
   /\ _scores (shared m) = [1; 2]%Q
   /\ total_steps racing_calls = 3
   /\ _timestep (shared m) = 2)
  /\
  (let m := run_fine read_then_wait (fine_start racing_calls pong) in
   busy_envs m = [GymEnv 1; GymEnv 0]
   /\ map wk_pc (workers m) = [FStore 0 [] 1%Q 0; FIterate 1 [] 2%Q]
   /\ _timestep (shared m) = 2
   /\ _timestep (shared (fine_machine_step 0 m)) = 1)
  /\
  (let r := session racing_calls pong in
   fst r = [Returned tt; Returned tt] /\ _timestep (snd r) = 3).
Proof.
  cbv zeta. repeat split; vm_compute; reflexivity.
Qed.

(** ** The video flag *)

Lemma _video_callback_with_steps (n k : Z) (evs : list event) (t : trainer) :
  _video_callback n (with_steps k evs t) = _video_callback n t.
Proof. destruct t; reflexivity. Qed.

(** C8 (as amended): [_video_callback] ignores its argument and reads the
    trainer's shared episode counter.  Once a call has been given the id
    [id], the counter stands at [id + 1] and stays there while the episode
    runs (no other call overlapping), so that episode is flagged exactly
    when [videos] is not zero and [(id + 1) mod videos = 0]: for
    [videos = 3] the ids 2, 5, 8, ...; for [videos = 0] no episode. *)
Theorem video_flag_reads_shared_counter (n : Z) (a : agent) (e : env)
    (s : episode_script) (t : trainer) :
  let id := _episode t in
  let t1 := snd (allocate_episode t) in
  let flag := negb (_videos t =? 0) && ((id + 1) mod _videos t =? 0) in
  fst (allocate_episode t) = Returned id
  /\ _video_callback n t1 = flag
  /\ (forall k evs, _video_callback n (with_steps k evs t1) = flag)
  /\ _video_callback n (snd (locked_episode a e id s t1)) = flag.
Proof.
  cbv zeta. rewrite allocate_episode_eq. cbn [fst snd].
  assert (H : _video_callback n
                (set_episode (_episode t + 1)
                   (with_steps 0 [Acquire SessionLock; Release SessionLock] t))
              = negb (_videos t =? 0) && ((_episode t + 1) mod _videos t =? 0)).
  { destruct t; unfold _video_callback; fields.
    now destruct (_ =? 0). }
  repeat split.
  - exact H.
  - intros k evs. now rewrite _video_callback_with_steps.
  - rewrite locked_episode_eq. cbn [snd].
    now rewrite _video_callback_with_steps.
Qed.

(** C8, as stated, flags the episodes with ids 0, 3, 6, ... for
    [videos = 3].  In a session of four calls the episode with id 0 is not
    flagged and the one with id 2 is. *)
Lemma video_flags_are_off_by_one :
  let flags :=
    video_flags
      [Request 0%nat (GymEnv 0) (stopping [1]%Q);
       Request 0%nat (GymEnv 0) (stopping [1]%Q);
       Request 0%nat (GymEnv 0) (stopping [1]%Q);
       Request 0%nat (GymEnv 0) (stopping [1]%Q)] pong in
  _videos pong = 3
  /\ flags = [(0, false); (1, false); (2, true); (3, false)]
  /\ ~ (forall id flag,
          In (id, flag) flags -> flag = (id mod _videos pong =? 0)).
Proof.
  cbv zeta.
  assert (Hflags :
    video_flags
      [Request 0%nat (GymEnv 0) (stopping [1]%Q);
       Request 0%nat (GymEnv 0) (stopping [1]%Q);
       Request 0%nat (GymEnv 0) (stopping [1]%Q);
       Request 0%nat (GymEnv 0) (stopping [1]%Q)] pong
    = [(0, false); (1, false); (2, true); (3, false)])
    by (vm_compute; reflexivity).
  rewrite Hflags.
  split; [vm_compute; reflexivity|]. split; [reflexivity|].
  intro H. specialize (H 0 false (or_introl eq_refl)).
  vm_compute in H. discriminate H.
Qed.

(** ** The second session-lock block in closed form *)

Lemma epoch_and_stop_checks_closed (t : trainer) :
  epoch_and_stop_checks t
  = (if report_fails t then Raised ZeroDivisionError else Returned tt,
     set_epoch (if epoch_due t then _epoch t + 1 else _epoch t)
       (set_running (if shuts_down t then false else _running t)
          (with_steps 0 (checks_events t) t))).
Proof.
  rewrite epoch_and_stop_checks_eq. cbv zeta.
  unfold checks_events, shutdown_events, shuts_down, report_events, report_fails.
  destruct (epoch_due t); cbn [andb negb].
  - rewrite _next_epoch_eq.
    replace (_epoch_size (with_steps 0 [Acquire SessionLock] t))
      with (_epoch_size t) by (destruct t; reflexivity).
    replace (_scores (with_steps 0 [Acquire SessionLock] t))
      with (_scores t) by (destruct t; reflexivity).
    unfold average.
    destruct (slice_from (- _epoch_size t) (_scores t)) as [|q l]; cbn [negb andb].
    + destruct t; same_state.
    + destruct (budget_spent t); [rewrite _stop_training_eq|];
        destruct t; same_state.
  - destruct (budget_spent t); [rewrite _stop_training_eq|];
      destruct t; same_state.
Qed.

(** ** The epoch report *)

(** For a positive epoch size the slice [scores[-epoch_size:]] is the
    window the specification describes. *)
Lemma slice_from_last_entries {A} (n : Z) (l : list A) :
  1 <= n -> slice_from (- n) l = last_entries (Z.to_nat n) l.
Proof.
  intro Hn. unfold slice_from, last_entries.
  destruct (- n <? 0) eqn:Hneg; [|apply Z.ltb_ge in Hneg; lia].
  rewrite firstn_rev, rev_involutive. f_equal. lia.
Qed.

Lemma last_entries_nonempty {A} (n : nat) (l : list A) :
  (1 <= n)%nat -> l <> [] -> last_entries n l <> [].
Proof.
  intros Hn Hl Hnil. unfold last_entries in Hnil.
  apply (f_equal (@List.length A)) in Hnil.
  rewrite length_rev, length_firstn, length_rev in Hnil. cbn in Hnil.
  destruct l; [contradiction|cbn in Hnil; lia].
Qed.

Lemma filter_print_close_events (envs : list env) :
  filter is_print (close_events envs) = [].
Proof. induction envs as [|e envs IH]; [reflexivity|exact IH]. Qed.

Lemma filter_print_shutdown_events (t : trainer) :
  filter is_print (shutdown_events t) = [].
Proof.
  unfold shutdown_events, stop_events, store_events.
  destruct (shuts_down t); [|reflexivity].
  cbn [filter is_print]. rewrite filter_app, filter_print_close_events.
  now destruct (truthy_directory _).
Qed.

Lemma filter_print_checks_events (t : trainer) :
  filter is_print (checks_events t) = filter is_print (report_events t).
Proof.
  unfold checks_events. cbn [filter is_print].
  rewrite !filter_app, filter_print_shutdown_events. cbn. apply app_nil_r.
Qed.

Lemma epoch_due_iff (t : trainer) :
  epoch_due t = true
  <-> _running t = true /\ (_epoch t + 1) * _epoch_size t <= _timestep t.
Proof.
  unfold epoch_due. rewrite andb_true_iff, Z.geb_le. reflexivity.
Qed.

Lemma slice_from_nonempty {A} (n : Z) (l : list A) :
  0 <= n -> l <> [] -> slice_from (- n) l <> [].
Proof.
  intros Hn Hl. destruct (Z.eq_dec n 0) as [->|Hpos].
  - unfold slice_from. cbn [Z.opp Z.ltb Z.compare].
    rewrite Z.min_l by lia. exact Hl.
  - rewrite slice_from_last_entries by lia.
    apply last_entries_nonempty; [lia|exact Hl].
Qed.

(** C5 (as amended): when a call enters its second session-lock block, the
    epoch report fires -- [_next_epoch] is run -- exactly when the trainer
    is still running and [timestep >= (epoch + 1) * epoch_size].  When it
    fires the epoch grows by one, whatever the epoch size; when it does
    not, the epoch stays and nothing is printed.  What a firing report
    prints is the mean of the slice [scores[-epoch_size:]], if that slice
    is not empty.  With at least one score in the list, as there is once
    the episode's score has been appended, a report is printed for every
    epoch size that is not negative, and for an epoch size of at least one
    the slice is the last [epoch_size] entries of the scores (fewer if
    there are fewer), so that their arithmetic mean is what is reported. *)
Theorem epoch_report (t : trainer) :
  let t' := snd (epoch_and_stop_checks t) in
  let printed := filter is_print (gained t t') in
  let window := last_entries (Z.to_nat (_epoch_size t)) (_scores t) in
  let due :=
    _running t = true /\ (_epoch t + 1) * _epoch_size t <= _timestep t in
  (_epoch t' = _epoch t + 1 <-> due)
  /\ (~ due -> _epoch t' = _epoch t /\ printed = [])
  /\ (due ->
      printed
      = match average (slice_from (- _epoch_size t) (_scores t)) with
        | Returned avg => [Print (_epoch t + 1) (_timestep t) avg]
        | Raised _ => []
        end)
  /\ (due -> 0 <= _epoch_size t -> _scores t <> [] ->
      exists avg, printed = [Print (_epoch t + 1) (_timestep t) avg])
  /\ (due -> 1 <= _epoch_size t -> _scores t <> [] ->
      window <> []
      /\ printed
         = [Print (_epoch t + 1) (_timestep t)
              (sum window / inject_Z (Z.of_nat (List.length window)))%Q]).
Proof.
  cbv zeta.
  rewrite epoch_and_stop_checks_closed. cbn [snd].
  replace (gained t _) with (checks_events t).
  2:{ destruct t; fields. rewrite skipn_app, skipn_all, Nat.sub_diag.
      reflexivity. }
  rewrite filter_print_checks_events. unfold report_events.
  rewrite <- epoch_due_iff.
  replace (_epoch (set_epoch _ _))
    with (if epoch_due t then _epoch t + 1 else _epoch t)
    by (destruct t; reflexivity).
  split; [|split; [|split; [|split]]].
  - destruct (epoch_due t); split; intro H;
      try reflexivity; try discriminate H; exfalso; lia.
  - intro Hdue. destruct (epoch_due t); [now elim Hdue|]. now split.
  - intro Hdue. rewrite Hdue. now destruct (average _).
  - intros Hdue Hsize Hscores. rewrite Hdue.
    pose proof (slice_from_nonempty (_epoch_size t) (_scores t) Hsize Hscores)
      as Hwindow.
    unfold average.
    destruct (slice_from _ _) as [|q w]; [contradiction|]. now eexists.
  - intros Hdue Hsize Hscores. rewrite Hdue.
    pose proof (last_entries_nonempty (Z.to_nat (_epoch_size t)) (_scores t)
                  ltac:(lia) Hscores) as Hwindow.
    rewrite slice_from_last_entries by assumption.
    split; [assumption|].
    unfold average.
    destruct (last_entries _ _) as [|q w]; [contradiction|reflexivity].
Qed.

Lemma epoch_report_witness :
  let t := checking_pong in
  let t' := snd (epoch_and_stop_checks t) in
  let window := last_entries (Z.to_nat (_epoch_size t)) (_scores t) in
  (_running t = true /\ (_epoch t + 1) * _epoch_size t <= _timestep t)
  /\ 1 <= _epoch_size t
  /\ _scores t <> []
  /\ _epoch t' = _epoch t + 1
  /\ window <> []
  /\ filter is_print (gained t t')
     = [Print (_epoch t + 1) (_timestep t)
          (sum window / inject_Z (Z.of_nat (List.length window)))%Q].
Proof.
  cbv zeta.
  assert (Hsize : 1 <= _epoch_size checking_pong)
    by (vm_compute; discriminate).
  assert (Hscores : _scores checking_pong <> [])
    by (vm_compute; discriminate).
  assert (Hdue : _running checking_pong = true
                 /\ (_epoch checking_pong + 1) * _epoch_size checking_pong
                    <= _timestep checking_pong)
    by (split; vm_compute; [reflexivity|discriminate]).
  split; [exact Hdue|]. split; [exact Hsize|]. split; [exact Hscores|].
  split.
  - exact (proj2 (proj1 (epoch_report checking_pong)) Hdue).
  - exact (proj2 (proj2 (proj2 (proj2 (epoch_report checking_pong))))
             Hdue Hsize Hscores).
Defined.

(** C5, as stated, fails in two ways.  First, a worker that reaches its
    second session-lock block after another worker has shut the session
    down prints no report although the time-step counter has passed the
    next epoch boundary.  Second, with the default epoch size of a budget
    below 100 steps, which is 0, a report is printed after every episode
    and averages all scores, while the last 0 entries have no mean. *)
Lemma epoch_report_counterexample :
  (let t := late_checking_pong in
   let t' := snd (epoch_and_stop_checks t) in
   (_epoch t + 1) * _epoch_size t <= _timestep t
   /\ _running t = false
   /\ _epoch t' = _epoch t
   /\ filter is_print (gained t t') = [])
  /\
  (let t := tiny_pong_checking in
   let t' := snd (epoch_and_stop_checks t) in
   _epoch_size t = 0
   /\ _scores t = [1; 3]%Q
   /\ filter is_print (gained t t') = [Print 2 2 (4 # 2)]
   /\ average (last_entries (Z.to_nat (_epoch_size t)) (_scores t))
      = Raised ZeroDivisionError).
Proof.
  cbv zeta. repeat split; try (vm_compute; reflexivity).
  vm_compute. discriminate.
Qed.

(** ** Where the score is appended *)

Lemma count_close_events (p : event -> bool) (envs : list env) :
  (forall l, p (Acquire (EnvLock l)) = false) ->
  (forall l, p (Release (EnvLock l)) = false) ->
  (forall e, p (EnvClose e) = false) ->
  count p (close_events envs) = 0%nat.
Proof.
  intros H1 H2 H3. induction envs as [|e envs IH]; [reflexivity|].
  cbn [close_events flat_map]. rewrite count_app.
  fold (close_events envs). rewrite IH.
  unfold count. cbn. now rewrite H1, H2, H3.
Qed.

Lemma episode_events_no_append (e : env) (a : agent) (rec : bool)
    (maxlen episode : Z) (s : episode_script) :
  count is_scores_append (episode_events e a rec maxlen episode s) = 0%nat.
Proof.
  unfold episode_events, try_events, after_try_events.
  rewrite count_app.
  replace (count is_scores_append (if rec then [NewExperience maxlen] else []))
    with 0%nat by now destruct rec.
  change (AgentStart a :: ?l) with ([AgentStart a] ++ l).
  rewrite count_app. cbn [count is_scores_append filter List.length Nat.add].
  destruct (on_start s); [reflexivity|].
  rewrite count_app.
  change (EnvReset e :: ?l) with ([EnvReset e] ++ l).
  rewrite count_app.
  replace (count is_scores_append
             match on_reset s with
             | Some _ => []
             | None => loop_events e a rec (rewards s)
                       ++ last_events e a (last_site s)
             end) with 0%nat.
  2:{ destruct (on_reset s); [reflexivity|].
      now rewrite count_app, count_loop_events, count_last_events. }
  destruct (try_exn s); try reflexivity.
  destruct (on_stop s); [reflexivity|]. now destruct rec.
Qed.

Lemma checks_events_no_append (t : trainer) :
  count is_scores_append (report_events t ++ shutdown_events t
                          ++ [Release SessionLock]) = 0%nat.
Proof.
  rewrite !count_app.
  unfold report_events, shutdown_events, stop_events, store_events.
  replace (count is_scores_append
             (if epoch_due t
              then match average (slice_from (- _epoch_size t) (_scores t)) with
                   | Returned avg => [Print (_epoch t + 1) (_timestep t) avg]
                   | Raised _ => []
                   end
              else [])) with 0%nat
    by (destruct (epoch_due t); [destruct (average _)|]; reflexivity).
  destruct (shuts_down t); [|reflexivity].
  change (StopTrainingEntered :: ?l) with ([StopTrainingEntered] ++ l).
  rewrite !count_app, count_close_events by reflexivity.
  now destruct (truthy_directory _).
Qed.

Lemma run_episode_completes_eq (a : agent) (e : env) (s : episode_script)
    (t : trainer) :
  _running t = true ->
  completes (recording t) s = true ->
  run_episode a e s t
  = epoch_and_stop_checks (before_checks a e s (sum (performed s)) t).
Proof.
  intros Hrun Hc. rewrite run_episode_eq, Hrun.
  destruct (completes_result _ _ Hc) as (Hres & _). now rewrite Hres.
Qed.

(** C9 (as amended): [run_episode] appends the score outside the session
    lock.  In a call that runs its episode to completion the one append
    comes right after the environment lock is released and right before
    the session lock is taken for the epoch and budget checks; the appended
    value is the score of the episode and goes to the end of [scores]. *)
Theorem score_is_appended_between_the_locks (a : agent) (e : env)
    (s : episode_script) (t : trainer) :
  _running t = true ->
  completes (recording t) s = true ->
  let t' := snd (run_episode a e s t) in
  let score := sum (performed s) in
  _scores t' = _scores t ++ [score]
  /\ exists before after,
       gained t t'
       = before
         ++ [Release (EnvLock e); ScoresAppend score; Acquire SessionLock]
         ++ after
       /\ count is_scores_append before = 0%nat
       /\ count is_scores_append after = 0%nat.
Proof.
  intros Hrun Hc. cbv zeta.
  rewrite run_episode_completes_eq, epoch_and_stop_checks_closed by assumption.
  cbn [snd]. split; [destruct t; reflexivity|].
  set (t1 := before_checks a e s (sum (performed s)) t).
  exists ([Acquire SessionLock; Release SessionLock; Acquire (EnvLock e)]
          ++ episode_events e a (recording t) (_experience_maxlen t)
               (_episode t) s),
         (report_events t1 ++ shutdown_events t1 ++ [Release SessionLock]).
  split; [|split].
  - subst t1. unfold checks_events.
    generalize (report_events (before_checks a e s (sum (performed s)) t)
                ++ shutdown_events (before_checks a e s (sum (performed s)) t)
                ++ [Release SessionLock]).
    intro rest. destruct t; fields. lists.
    rewrite skipn_app, skipn_all, Nat.sub_diag. reflexivity.
  - rewrite count_app, episode_events_no_append. reflexivity.
  - apply checks_events_no_append.
Qed.

Lemma score_is_appended_between_the_locks_witness :
  let t' := snd (run_episode 0%nat (GymEnv 0) (stopping [1; 2]%Q) pong) in
  let score := sum (performed (stopping [1; 2]%Q)) in
  _scores t' = _scores pong ++ [score]
  /\ exists before after,
       gained pong t'
       = before
         ++ [Release (EnvLock (GymEnv 0)); ScoresAppend score;
             Acquire SessionLock]
         ++ after
       /\ count is_scores_append before = 0%nat
       /\ count is_scores_append after = 0%nat.
Proof.
  apply (score_is_appended_between_the_locks 0%nat (GymEnv 0)
           (stopping [1; 2]%Q) pong); reflexivity.
Defined.

(** C9, as stated, puts the append inside the session-lock region of the
    epoch and budget checks.  A single call appends its score while the
    session lock is not held; and with two overlapping workers the score of
    the second is appended after the first has shut the session down and
    saved the scores. *)
Lemma score_append_counterexample :
  appends_outside_lock false
    (gained pong (snd (run_episode 0%nat (GymEnv 0) (stopping [1; 2]%Q) pong)))
  = 1%nat
  /\ (let t := snd (run_schedule overlapping (wrapped_workers, wrapped_pong)) in
      filter is_save_scores (gained wrapped_pong t)
      = [SaveScores [2]%Q; SaveScores [2; 1]%Q]
      /\ _scores t = [2; 1]%Q).
Proof.
  cbv zeta. repeat split; vm_compute; reflexivity.
Qed.

(** ** How often the session is shut down *)

Lemma forallb_loop_events (e : env) (a : agent) (rec : bool) (rs : list Q) :
  forallb is_episode_event (loop_events e a rec rs) = true.
Proof.
  induction rs as [|r rs IH]; [reflexivity|].
  cbn [loop_events flat_map]. rewrite forallb_app.
  fold (loop_events e a rec rs). rewrite IH. now destruct rec.
Qed.

Lemma forallb_episode_events (e : env) (a : agent) (rec : bool)
    (maxlen episode : Z) (s : episode_script) :
  forallb is_episode_event (episode_events e a rec maxlen episode s) = true.
Proof.
  unfold episode_events, try_events, after_try_events.
  rewrite forallb_app.
  replace (forallb is_episode_event (if rec then [NewExperience maxlen] else []))
    with true by now destruct rec.
  cbn [forallb is_episode_event andb].
  destruct (on_start s); [reflexivity|].
  rewrite forallb_app. cbn [forallb is_episode_event andb].
  replace (forallb is_episode_event
             match on_reset s with
             | Some _ => []
             | None => loop_events e a rec (rewards s)
                       ++ last_events e a (last_site s)
             end) with true.
  2:{ destruct (on_reset s); [reflexivity|].
      rewrite forallb_app, forallb_loop_events. now destruct (last_site s). }
  destruct (try_exn s); try reflexivity.
  destruct (on_stop s); [reflexivity|]. now destruct rec.
Qed.

Lemma count_none (p q : event -> bool) (l : list event) :
  forallb q l = true ->
  (forall ev, q ev = true -> p ev = false) ->
  count p l = 0%nat.
Proof.
  intros Hall Hpq. induction l as [|ev l IH]; [reflexivity|].
  cbn [forallb] in Hall. apply andb_true_iff in Hall as [Hev Hl].
  unfold count in *. cbn [filter]. rewrite (Hpq ev Hev). now apply IH.
Qed.

Lemma episode_events_no_stop_entry (e : env) (a : agent) (rec : bool)
    (maxlen episode : Z) (s : episode_script) :
  count is_stop_entry (episode_events e a rec maxlen episode s) = 0%nat.
Proof.
  apply count_none with (q := is_episode_event).
  - apply forallb_episode_events.
  - now intros [].
Qed.

Lemma count_stop_entry_checks_events (t : trainer) :
  count is_stop_entry (checks_events t) = if shuts_down t then 1%nat else 0%nat.
Proof.
  unfold checks_events.
  change (Acquire SessionLock :: ?l) with ([Acquire SessionLock] ++ l).
  rewrite !count_app.
  replace (count is_stop_entry (report_events t)) with 0%nat.
  2:{ unfold report_events.
      destruct (epoch_due t); [destruct (average _)|]; reflexivity. }
  unfold shutdown_events, stop_events, store_events.
  destruct (shuts_down t); [|reflexivity].
  change (StopTrainingEntered :: ?l) with ([StopTrainingEntered] ++ l).
  rewrite !count_app, count_close_events by reflexivity.
  now destruct (truthy_directory _).
Qed.

(** A call's trace is the old trace followed by what the call gained. *)
Lemma run_episode_extends (a : agent) (e : env) (s : episode_script)
    (t : trainer) :
  trace (snd (run_episode a e s t))
  = trace t ++ gained t (snd (run_episode a e s t)).
Proof.
  rewrite run_episode_eq. destruct (_running t).
  - destruct (episode_result (recording t) s) as [score|x].
    + rewrite epoch_and_stop_checks_closed. cbn [snd].
      generalize (checks_events (before_checks a e s score t)). intro rest.
      destruct t; fields; lists.
      now rewrite skipn_app, skipn_all, Nat.sub_diag.
    + cbn [snd]. destruct t; fields; lists.
      now rewrite skipn_app, skipn_all, Nat.sub_diag.
  - cbn [snd]. unfold gained. now rewrite skipn_all, app_nil_r.
Qed.

(** One call enters [_stop_training] exactly when it turns the running
    flag from true to false, and a stopped trainer stays stopped. *)
Lemma run_episode_stop_entries (a : agent) (e : env) (s : episode_script)
    (t : trainer) :
  let t' := snd (run_episode a e s t) in
  count is_stop_entry (gained t t')
  = (if _running t && negb (_running t') then 1%nat else 0%nat)
  /\ (_running t = false -> _running t' = false).
Proof.
  cbv zeta. rewrite run_episode_eq. destruct (_running t) eqn:Hrun.
  - split; [|discriminate].
    destruct (episode_result (recording t) s) as [score|x].
    + rewrite epoch_and_stop_checks_closed. cbn [snd].
      set (t1 := before_checks a e s score t).
      assert (Hrun1 : _running t1 = true)
        by (subst t1; destruct t; cbn in *; assumption).
      replace (gained t _)
        with (([Acquire SessionLock; Release SessionLock; Acquire (EnvLock e)]
               ++ episode_events e a (recording t) (_experience_maxlen t)
                    (_episode t) s
               ++ [Release (EnvLock e); ScoresAppend score])
              ++ checks_events t1).
      2:{ subst t1. generalize (checks_events (before_checks a e s score t)).
          intro rest. destruct t; fields; lists.
          now rewrite skipn_app, skipn_all, Nat.sub_diag. }
      rewrite !count_app, episode_events_no_stop_entry,
        count_stop_entry_checks_events.
      replace (_running (set_epoch _ _))
        with (if shuts_down t1 then false else _running t1)
        by (destruct t1; reflexivity).
      rewrite Hrun1. now destruct (shuts_down t1).
    + cbn [snd].
      replace (_running (after_episode a e s t)) with true
        by (destruct t; cbn in *; congruence).
      replace (gained t _)
        with ([Acquire SessionLock; Release SessionLock; Acquire (EnvLock e)]
              ++ episode_events e a (recording t) (_experience_maxlen t)
                   (_episode t) s
              ++ [Release (EnvLock e)]).
      2:{ destruct t; fields; lists.
          now rewrite skipn_app, skipn_all, Nat.sub_diag. }
      now rewrite !count_app, episode_events_no_stop_entry.
  - cbn [snd]. rewrite Hrun. split; [|reflexivity].
    unfold gained. now rewrite skipn_all.
Qed.

Lemma gained_trans (t t1 t2 : trainer) :
  trace t1 = trace t ++ gained t t1 ->
  trace t2 = trace t1 ++ gained t1 t2 ->
  trace t2 = trace t ++ gained t t2
  /\ gained t t2 = gained t t1 ++ gained t1 t2.
Proof.
  intros H1 H2.
  assert (H : trace t2 = trace t ++ gained t t1 ++ gained t1 t2)
    by (rewrite H2, H1 at 1; now rewrite app_assoc).
  assert (Hg : gained t t2 = gained t t1 ++ gained t1 t2).
  { unfold gained at 1. rewrite H.
    now rewrite skipn_app, skipn_all, Nat.sub_diag. }
  split; [now rewrite Hg|exact Hg].
Qed.

(** X23: calls made one after the other enter [_stop_training] at most
    once: exactly once if the running flag went from true to false, never
    otherwise; and once the flag is false it stays false. *)
Lemma session_stops_at_most_once (calls : list request) (t : trainer) :
  let t' := snd (session calls t) in
  trace t' = trace t ++ gained t t'
  /\ count is_stop_entry (gained t t')
     = (if _running t && negb (_running t') then 1%nat else 0%nat)
  /\ (_running t = false -> _running t' = false).
Proof.
  cbv zeta. revert t. induction calls as [|c calls IH]; intro t.
  - cbn [session snd]. unfold gained. rewrite skipn_all, app_nil_r.
    split; [reflexivity|]. split; [|trivial].
    now destruct (_running t).
  - rewrite session_cons. cbn [snd].
    set (t1 := snd (run_episode (req_agent c) (req_env c) (req_script c) t)).
    destruct (IH t1) as (Hext2 & Hcount2 & Hstay2).
    destruct (run_episode_stop_entries (req_agent c) (req_env c)
                (req_script c) t) as (Hcount1 & Hstay1).
    fold t1 in Hcount1, Hstay1.
    pose proof (run_episode_extends (req_agent c) (req_env c) (req_script c) t)
      as Hext1. fold t1 in Hext1.
    destruct (gained_trans t t1 _ Hext1 Hext2) as (Hext & Hg).
    split; [exact Hext|]. rewrite Hg, count_app, Hcount1, Hcount2.
    split.
    + destruct (_running t) eqn:Hr; cbn [andb].
      * destruct (_running t1) eqn:Hr1; cbn [andb negb]; [reflexivity|].
        rewrite (Hstay2 eq_refl). reflexivity.
      * rewrite (Hstay1 eq_refl). reflexivity.
    + intro Hr. apply Hstay2, Hstay1, Hr.
Qed.

(** C1: the code at two overlapping calls.  Both workers pass the running
    check before either finishes; each then finds the budget spent in its
    second session-lock block and runs [_stop_training]: the session is
    shut down twice, every registered environment is closed twice and the
    scores are saved twice.  The same two calls made one after the other
    shut the session down once, the second call being refused. *)
Theorem overlapping_calls_shut_down_twice :
  (let m := run_schedule overlapping (wrapped_workers, wrapped_pong) in
   let evs := gained wrapped_pong (snd m) in
   map th_pc (fst m) = [Finished (Returned tt); Finished (Returned tt)]
   /\ count is_stop_entry evs = 2%nat
   /\ count (is_close_of first_env) evs = 2%nat
   /\ count (is_close_of second_env) evs = 2%nat
   /\ count is_save_scores evs = 2%nat)
  /\
  (let m := run_schedule one_after_the_other (wrapped_workers, wrapped_pong) in
   let evs := gained wrapped_pong (snd m) in
   map th_pc (fst m) = [Finished (Returned tt); Finished (Raised StopTraining)]
   /\ count is_stop_entry evs = 1%nat
   /\ count (is_close_of first_env) evs = 1%nat
   /\ count (is_close_of second_env) evs = 1%nat
   /\ count is_save_scores evs = 1%nat).
Proof.
  cbv zeta. repeat split; vm_compute; reflexivity.
Qed.

(** ** Building environments *)

Lemma create_env_loop_eq (ps : list preprocess_spec) :
  forall (e : env) (t : trainer),
    create_env_loop ps e t
    = (Returned (wrap_all ps e),
       set_envs (_envs t ++ wrappers ps e)
         (with_steps 0 (wrap_events ps e) t)).
Proof.
  induction ps as [|p ps IH]; intros e t.
  - cbn. unfold ret. destruct t; same_state.
  - cbn [create_env_loop wrap_all fold_left wrappers wrap_events].
    unfold bind at 1. rewrite emit_eq.
    unfold bind at 1, modify at 1. rewrite IH.
    destruct t; same_state.
Qed.

Lemma create_env_eq (t : trainer) :
  create_env t
  = (Returned (wrap_all (_preprocesses t) (GymEnv (next_env t))),
     set_next_env (S (next_env t))
       (set_envs (_envs t ++ wrappers (_preprocesses t) (GymEnv (next_env t)))
          (with_steps 0
             (NewGymEnv (next_env t) (_env_name t)
              :: wrap_events (_preprocesses t) (GymEnv (next_env t))) t))).
Proof.
  unfold create_env.
  rewrite bind_get, bind_get.
  unfold bind at 1, modify at 1.
  unfold bind at 1. rewrite emit_eq. rewrite bind_get.
  replace (_preprocesses (with_steps _ _ _)) with (_preprocesses t)
    by (destruct t; reflexivity).
  rewrite create_env_loop_eq. destruct t; same_state.
Qed.

Lemma wrap_all_in_wrappers (ps : list preprocess_spec) (e : env) :
  ps <> [] -> In (wrap_all ps e) (wrappers ps e).
Proof.
  revert e. induction ps as [|p ps IH]; intros e Hps; [contradiction|].
  cbn [wrap_all fold_left wrappers]. destruct ps as [|q ps].
  - left. reflexivity.
  - right. apply IH. discriminate.
Qed.

(** X22: with at least one preprocessor the environment [create_env]
    returns is in the registry afterwards, and [add_preprocess] is refused
    from then on with [RuntimeError]. *)
Lemma create_env_with_preprocesses (p : preprocess_spec) (t : trainer) :
  _preprocesses t <> [] ->
  exists e t',
    create_env t = (Returned e, t')
    /\ In e (_envs t')
    /\ fst (add_preprocess p t')
       = Raised (RuntimeError "must add preprocesses before creating envs").
Proof.
  intro Hps. rewrite create_env_eq. eexists. eexists.
  split; [reflexivity|].
  pose proof (wrap_all_in_wrappers _ (GymEnv (next_env t)) Hps) as Hin.
  assert (Henvs : In (wrap_all (_preprocesses t) (GymEnv (next_env t)))
                    (_envs t ++ wrappers (_preprocesses t) (GymEnv (next_env t))))
    by (apply in_or_app; now right).
  split.
  - destruct t; exact Henvs.
  - unfold add_preprocess. rewrite bind_get.
    replace (_envs (set_next_env _ _))
      with (_envs t ++ wrappers (_preprocesses t) (GymEnv (next_env t)))
      by (destruct t; reflexivity).
    destruct (_envs t ++ wrappers _ _); [contradiction|reflexivity].
Qed.

(** Without preprocessors [create_env] leaves the registry as it was. *)
Lemma create_env_without_preprocesses (t : trainer) :
  _preprocesses t = [] ->
  fst (create_env t) = Returned (GymEnv (next_env t))
  /\ _envs (snd (create_env t)) = _envs t.
Proof.
  intro Hps. rewrite create_env_eq, Hps. cbn [fst snd wrap_all fold_left].
  split; [reflexivity|]. destruct t; fields. cbn [wrappers]. apply app_nil_r.
Qed.

(** C2: the code at a trainer without preprocessors.  [create_env] hands
    out an environment and registers nothing; the call that then spends the
    budget shuts the session down without closing that environment.  With
    two preprocessors one created environment puts two objects into the
    registry, the inner wrapper and the returned one. *)
Theorem unwrapped_env_is_never_closed :
  _preprocesses short_pong = []
  /\ fst (create_env short_pong) = Returned (GymEnv 0)
  /\ _envs bare_pong = []
  /\ (let t := snd (run_episode 0%nat (GymEnv 0) (stopping [1; 1]%Q) bare_pong) in
      _running t = false
      /\ count is_stop_entry (gained bare_pong t) = 1%nat
      /\ count (is_close_of (GymEnv 0)) (gained bare_pong t) = 0%nat)
  /\ _envs twice_wrapped_pong
     = [Wrapped grayscale (GymEnv 0);
        Wrapped sharpen (Wrapped grayscale (GymEnv 0))].
Proof.
  cbv zeta. repeat split; vm_compute; reflexivity.
Qed.

(** C7: the code at a trainer without preprocessors.  After [create_env]
    the registry is still empty, so [add_preprocess] is accepted and the
    preprocessor recorded; had one preprocessor been configured before, the
    same call would be refused. *)
Theorem add_preprocess_after_unwrapped_env :
  _envs bare_pong = []
  /\ fst (add_preprocess grayscale bare_pong) = Returned tt
  /\ _preprocesses (snd (add_preprocess grayscale bare_pong)) = [grayscale]
  /\ fst (add_preprocess sharpen wrapped_pong)
     = Raised (RuntimeError "must add preprocesses before creating envs").
Proof.
  repeat split; vm_compute; reflexivity.
Qed.

(** ** The thread machine and run_episode *)

(** A worker that is scheduled five times in a row, with no other worker in
    between, does what one call of [run_episode] does. *)
Lemma solo_thread_is_run_episode (c : request) (t : trainer) :
  run_schedule [0; 0; 0; 0; 0]%nat ([spawn c], t)
  = ([at_pc (spawn c)
        (Finished (fst (run_episode (req_agent c) (req_env c) (req_script c) t)))],
     snd (run_episode (req_agent c) (req_env c) (req_script c) t)).
Proof.
  destruct c as [a e s].
  unfold run_episode, run_schedule, spawn, bind.
  cbn [fold_left machine_step nth_error fst snd thread_step th_pc th_agent
       th_env th_script req_agent req_env req_script update_nth at_pc].
  destruct (check_running t) as [[[]|x] t1];
    cbn [advance fold_left machine_step nth_error fst snd thread_step th_pc
         th_agent th_env th_script update_nth at_pc]; [|reflexivity].
  destruct (allocate_episode t1) as [[episode|x] t2];
    cbn [advance fold_left machine_step nth_error fst snd thread_step th_pc
         th_agent th_env th_script update_nth at_pc]; [|reflexivity].
  destruct (locked_episode a e episode s t2) as [[score|x] t3];
    cbn [advance fold_left machine_step nth_error fst snd thread_step th_pc
         th_agent th_env th_script update_nth at_pc]; [|reflexivity].
  destruct (append_score score t3) as [[[]|x] t4];
    cbn [advance fold_left machine_step nth_error fst snd thread_step th_pc
         th_agent th_env th_script update_nth at_pc]; [|reflexivity].
  destruct (epoch_and_stop_checks t4) as [[[]|x] t5];
    cbn [advance fold_left machine_step nth_error fst snd thread_step th_pc
         th_agent th_env th_script update_nth at_pc]; reflexivity.
Qed.

(** * Further properties of the trainer *)

(** ** The trace of one call, and of a session *)

Lemma skipn_length_app {A} (l r : list A) : skipn (List.length l) (l ++ r) = r.
Proof. now rewrite skipn_app, skipn_all, Nat.sub_diag. Qed.

Lemma run_episode_trace (a : agent) (e : env) (s : episode_script)
    (t : trainer) :
  trace (snd (run_episode a e s t)) = trace t ++ call_events a e s t.
Proof.
  rewrite run_episode_eq. unfold call_events. destruct (_running t).
  - destruct (episode_result (recording t) s) as [score|x].
    + rewrite epoch_and_stop_checks_closed. cbn [snd].
      generalize (checks_events (before_checks a e s score t)). intro rest.
      destruct t; fields; lists. reflexivity.
    + cbn [snd]. destruct t; fields; lists. reflexivity.
  - cbn [snd]. now rewrite app_nil_r.
Qed.

Lemma run_episode_gained (a : agent) (e : env) (s : episode_script)
    (t : trainer) :
  gained t (snd (run_episode a e s t)) = call_events a e s t.
Proof. unfold gained. rewrite run_episode_trace. apply skipn_length_app. Qed.

Lemma session_trace (calls : list request) (t : trainer) :
  trace (snd (session calls t)) = trace t ++ gained t (snd (session calls t)).
Proof.
  revert t. induction calls as [|c calls IH]; intro t.
  - cbn [session snd]. unfold gained. now rewrite skipn_all, app_nil_r.
  - rewrite session_cons. cbn [snd].
    set (t1 := snd (run_episode (req_agent c) (req_env c) (req_script c) t)).
    pose proof (run_episode_extends (req_agent c) (req_env c) (req_script c) t)
      as H1. fold t1 in H1.
    exact (proj1 (gained_trans t t1 _ H1 (IH t1))).
Qed.

Lemma session_gained_cons (c : request) (calls : list request) (t : trainer) :
  let t1 := snd (run_episode (req_agent c) (req_env c) (req_script c) t) in
  gained t (snd (session (c :: calls) t))
  = call_events (req_agent c) (req_env c) (req_script c) t
    ++ gained t1 (snd (session calls t1)).
Proof.
  cbv zeta. rewrite session_cons. cbn [snd].
  set (t1 := snd (run_episode (req_agent c) (req_env c) (req_script c) t)).
  pose proof (run_episode_extends (req_agent c) (req_env c) (req_script c) t)
    as H1. fold t1 in H1.
  rewrite (proj2 (gained_trans t t1 _ H1 (session_trace calls t1))).
  subst t1. now rewrite run_episode_gained.
Qed.

(** A call changes none of the settings made by the constructor, nor the
    registry and the list of preprocessors. *)
Lemma run_episode_settings (a : agent) (e : env) (s : episode_script)
    (t : trainer) :
  let t' := snd (run_episode a e s t) in
  _directory t' = _directory t /\ _timesteps t' = _timesteps t
  /\ _epoch_size t' = _epoch_size t /\ _videos t' = _videos t
  /\ _experience t' = _experience t
  /\ _experience_maxlen t' = _experience_maxlen t
  /\ _envs t' = _envs t /\ _preprocesses t' = _preprocesses t.
Proof.
  cbv zeta. rewrite run_episode_eq. destruct (_running t).
  - destruct (episode_result (recording t) s) as [score|x].
    + rewrite epoch_and_stop_checks_closed. cbn [snd].
      destruct t; repeat split.
    + cbn [snd]. destruct t; repeat split.
  - cbn [snd]. repeat split.
Qed.

(** ** Locks *)






Lemma replay_locks_acquire (held : list lock_id) (l : lock_id)
    (tr : list event) :
  ~ In l held ->
  replay_locks held (Acquire l :: tr) = replay_locks (l :: held) tr.
Proof.
  intro Hfree. cbn [replay_locks].
  destruct (in_dec lock_id_eq_dec l held); [contradiction|reflexivity].
Qed.

Lemma replay_locks_release (held : list lock_id) (l : lock_id)
    (tr : list event) :
  replay_locks (l :: held) (Release l :: tr) = replay_locks held tr.
Proof.
  cbn [replay_locks].
  destruct (lock_id_eq_dec l l); [reflexivity|contradiction].
Qed.

Lemma replay_locks_other (held : list lock_id) (ev : event)
    (tr : list event) :
  is_lock_event ev = false ->
  replay_locks held (ev :: tr) = replay_locks held tr.
Proof. intro H. now destruct ev. Qed.

Lemma call_events_running (a : agent) (e : env) (s : episode_script)
    (t : trainer) :
  _running t = true ->
  call_events a e s t
  = Acquire SessionLock :: Release SessionLock :: Acquire (EnvLock e)
    :: episode_events e a (recording t) (_experience_maxlen t) (_episode t) s
    ++ Release (EnvLock e)
       :: match episode_result (recording t) s with
          | Returned score =>
              ScoresAppend score
              :: checks_events (before_checks a e s score t)
          | Raised _ => []
          end.
Proof. intro Hrun. unfold call_events. now rewrite Hrun. Qed.



(** ** Persistence *)

Lemma count_loop_events_plain (p : event -> bool) (e : env) (a : agent)
    (rs : list Q) :
  p (AgentStep a) = false -> p (EnvStep e) = false ->
  p (AgentExperience a) = false ->
  count p (loop_events e a false rs) = 0%nat.
Proof.
  intros H1 H2 H3. induction rs as [|r rs IH]; [reflexivity|].
  cbn [loop_events flat_map]. rewrite count_app.
  fold (loop_events e a false rs). rewrite IH.
  unfold count. cbn. now rewrite H1, H2, H3.
Qed.

Lemma episode_events_dry (e : env) (a : agent) (maxlen episode : Z)
    (s : episode_script) :
  count is_persistence_event (episode_events e a false maxlen episode s)
  = 0%nat.
Proof.
  unfold episode_events, try_events, after_try_events. cbn [app].
  change (AgentStart a :: ?l) with ([AgentStart a] ++ l).
  rewrite count_app. destruct (on_start s); [reflexivity|].
  change (EnvReset e :: ?l) with ([EnvReset e] ++ l). rewrite !count_app.
  replace (count is_persistence_event
             match on_reset s with
             | Some _ => []
             | None => loop_events e a false (rewards s)
                       ++ last_events e a (last_site s)
             end) with 0%nat.
  2:{ destruct (on_reset s); [reflexivity|].
      now rewrite count_app, count_loop_events_plain, count_last_events. }
  destruct (try_exn s); try reflexivity. now destruct (on_stop s).
Qed.

Lemma checks_events_dry (t : trainer) :
  truthy_directory (_directory t) = false ->
  count is_persistence_event (checks_events t) = 0%nat.
Proof.
  intro Hdry. unfold checks_events.
  change (Acquire SessionLock :: ?l) with ([Acquire SessionLock] ++ l).
  rewrite !count_app.
  replace (count is_persistence_event (report_events t)) with 0%nat.
  2:{ unfold report_events.
      destruct (epoch_due t); [destruct (average _)|]; reflexivity. }
  unfold shutdown_events, stop_events, store_events. rewrite Hdry.
  destruct (shuts_down t); [|reflexivity].
  change (StopTrainingEntered :: ?l) with ([StopTrainingEntered] ++ l).
  now rewrite !count_app, count_close_events.
Qed.

Lemma call_events_dry (a : agent) (e : env) (s : episode_script)
    (t : trainer) :
  truthy_directory (_directory t) = false ->
  count is_persistence_event (call_events a e s t) = 0%nat.
Proof.
  intro Hdry. unfold call_events. destruct (_running t); [|reflexivity].
  assert (Hrec : recording t = false) by (unfold recording; now rewrite Hdry).
  rewrite Hrec, !count_app, episode_events_dry.
  change (Release (EnvLock e) :: ?l) with ([Release (EnvLock e)] ++ l).
  rewrite count_app.
  destruct (episode_result false s) as [score|x]; [|reflexivity].
  change (ScoresAppend score :: ?l) with ([ScoresAppend score] ++ l).
  rewrite count_app, checks_events_dry; [reflexivity|].
  destruct t; exact Hdry.
Qed.

(** X2: a trainer without a results directory ([None] or the empty string)
    is a dry run.  Throughout any sequence of calls, also when
    [experience] is switched on and when the session is shut down, nothing
    is written: no experience buffer is created, filled or saved, and the
    scores are not saved. *)
Theorem dry_run_writes_nothing (calls : list request) (t : trainer) :
  truthy_directory (_directory t) = false ->
  count is_persistence_event (gained t (snd (session calls t))) = 0%nat.
Proof.
  revert t. induction calls as [|c calls IH]; intros t Hdry.
  - cbn [session snd]. unfold gained. now rewrite skipn_all.
  - rewrite session_gained_cons, count_app, call_events_dry by assumption.
    apply IH.
    destruct (run_episode_settings (req_agent c) (req_env c) (req_script c) t)
      as (Hd & _).
    cbv zeta in Hd. now rewrite Hd.
Qed.

Lemma dry_run_writes_nothing_witness :
  let calls := [Request 0%nat (GymEnv 0) (stopping [1]%Q);
                Request 0%nat (GymEnv 0) (stopping [1; 1]%Q);
                Request 0%nat (GymEnv 0) (stopping [1]%Q)] in
  count is_persistence_event (gained dry_pong (snd (session calls dry_pong)))
  = 0%nat.
Proof.
  intro calls. apply (dry_run_writes_nothing calls dry_pong). reflexivity.
Defined.

Lemma filter_experience_loop_events (e : env) (a : agent) (rs : list Q) :
  filter is_experience_event (loop_events e a true rs)
  = repeat ExperienceAppend (List.length rs).
Proof.
  induction rs as [|r rs IH]; [reflexivity|].
  cbn [loop_events flat_map]. rewrite filter_app.
  fold (loop_events e a true rs). rewrite IH. reflexivity.
Qed.

Lemma filter_experience_checks_events (t : trainer) :
  filter is_experience_event (checks_events t) = [].
Proof.
  unfold checks_events. cbn [filter is_experience_event].
  rewrite !filter_app.
  replace (filter is_experience_event (report_events t)) with (@nil event).
  2:{ unfold report_events.
      destruct (epoch_due t); [destruct (average _)|]; reflexivity. }
  unfold shutdown_events, stop_events, store_events.
  destruct (shuts_down t); [|reflexivity].
  cbn [filter is_experience_event app]. rewrite filter_app.
  replace (filter is_experience_event (close_events (_envs t)))
    with (@nil event).
  2:{ induction (_envs t) as [|e envs IH]; [reflexivity|exact IH]. }
  now destruct (truthy_directory _).
Qed.

Lemma filter_cons_false (p : event -> bool) (ev : event) (l : list event) :
  p ev = false -> filter p (ev :: l) = filter p l.
Proof. intro H. cbn [filter]. now rewrite H. Qed.

Lemma filter_experience_episode_events (e : env) (a : agent)
    (maxlen episode : Z) (s : episode_script) :
  completes true s = true ->
  filter is_experience_event (episode_events e a true maxlen episode s)
  = NewExperience maxlen
    :: repeat ExperienceAppend (List.length (performed s))
    ++ [ExperienceSave episode].
Proof.
  intro Hc.
  destruct (completes_result _ _ Hc) as (_ & Hstart & Hexn & Hstop).
  unfold episode_events, try_events, after_try_events, performed, try_rewards.
  rewrite Hstart, Hexn, Hstop.
  destruct (on_reset s) as [x|].
  - reflexivity.
  - assert (Hlast : filter is_experience_event (last_events e a (last_site s))
                    = []) by now destruct (last_site s).
    change (filter is_experience_event
              ([NewExperience maxlen] ++ [AgentStart a] ++ [EnvReset e]
               ++ (loop_events e a true (rewards s)
                   ++ last_events e a (last_site s))
               ++ [AgentStop a; ExperienceSave episode])
            = [NewExperience maxlen]
              ++ repeat ExperienceAppend (List.length (rewards s))
              ++ [ExperienceSave episode]).
    rewrite !filter_app, filter_experience_loop_events, Hlast.
    cbn. now rewrite app_nil_r.
Qed.

(** X3: when a results directory is set and [experience] is on, a call
    whose episode completes creates one experience buffer of the configured
    capacity, appends to it once per completed step, and saves it once,
    under the episode id that this call was given. *)
Theorem experience_is_saved_under_the_episode_id (a : agent) (e : env)
    (s : episode_script) (t : trainer) :
  _running t = true ->
  recording t = true ->
  completes true s = true ->
  filter is_experience_event (gained t (snd (run_episode a e s t)))
  = NewExperience (_experience_maxlen t)
    :: repeat ExperienceAppend (List.length (performed s))
    ++ [ExperienceSave (_episode t)].
Proof.
  intros Hrun Hrec Hc. rewrite run_episode_gained.
  rewrite call_events_running by assumption. rewrite Hrec.
  destruct (completes_result _ _ Hc) as (Hres & _). rewrite Hres.
  generalize (checks_events (before_checks a e s (sum (performed s)) t))
             (filter_experience_checks_events
                (before_checks a e s (sum (performed s)) t)).
  intros checks Hchecks.
  rewrite !filter_cons_false by reflexivity.
  rewrite filter_app, filter_experience_episode_events by assumption.
  rewrite !filter_cons_false by reflexivity.
  rewrite Hchecks. apply app_nil_r.
Qed.

Lemma experience_is_saved_under_the_episode_id_witness :
  let t := snd (run_episode 0%nat (GymEnv 0) (crashing [1]%Q) recording_pong) in
  _episode t = 1
  /\ filter is_experience_event
       (gained t (snd (run_episode 0%nat (GymEnv 0) (stopping [1; 1]%Q) t)))
     = NewExperience (_experience_maxlen t)
       :: repeat ExperienceAppend (List.length (performed (stopping [1; 1]%Q)))
       ++ [ExperienceSave (_episode t)].
Proof.
  cbv zeta. split; [vm_compute; reflexivity|].
  apply experience_is_saved_under_the_episode_id; vm_compute; reflexivity.
Defined.

(** ** Exceptions outside the try block *)

(** X4: [agent.start()] is called outside the [try] block, so whatever it
    raises, [StopEpisode] included, reaches the caller of [run_episode].
    The environment is then never reset, no step is taken and no score is
    appended, but the episode id is used up. *)
Theorem exception_in_agent_start_escapes (a : agent) (e : env)
    (s : episode_script) (x : exn) (t : trainer) :
  _running t = true ->
  on_start s = Some x ->
  let t' := snd (run_episode a e s t) in
  fst (run_episode a e s t) = Raised x
  /\ count is_env_reset (gained t t') = 0%nat
  /\ _episode t' = _episode t + 1
  /\ _timestep t' = _timestep t
  /\ _scores t' = _scores t
  /\ _running t' = true.
Proof.
  intros Hrun Hstart. cbv zeta. rewrite run_episode_gained.
  rewrite run_episode_eq. unfold call_events. rewrite Hrun.
  assert (Hres : episode_result (recording t) s = Raised x)
    by (unfold episode_result; now rewrite Hstart).
  rewrite Hres. cbn [fst snd]. split; [reflexivity|].
  split.
  - unfold episode_events. rewrite Hstart. now destruct (recording t).
  - unfold after_episode, steps, performed. rewrite Hstart.
    destruct t; cbn in *. repeat split; try lia. assumption.
Qed.

Lemma exception_in_agent_start_escapes_witness :
  let t' := snd (run_episode 0%nat (GymEnv 0) stopping_at_start pong) in
  fst (run_episode 0%nat (GymEnv 0) stopping_at_start pong) = Raised StopEpisode
  /\ count is_env_reset (gained pong t') = 0%nat
  /\ _episode t' = _episode pong + 1
  /\ _timestep t' = _timestep pong
  /\ _scores t' = _scores pong
  /\ _running t' = true.
Proof.
  apply (exception_in_agent_start_escapes 0%nat (GymEnv 0) stopping_at_start
           StopEpisode pong); reflexivity.
Defined.

(** ** Epochs and the budget *)

Lemma run_episode_epoch_bound (a : agent) (e : env) (s : episode_script)
    (t : trainer) :
  _epoch t * _epoch_size t <= _timestep t ->
  let t' := snd (run_episode a e s t) in
  _epoch t' * _epoch_size t' <= _timestep t'.
Proof.
  intro Hinv. cbv zeta. rewrite run_episode_eq.
  pose proof (steps_nonneg s) as Hsteps.
  destruct (_running t); [|exact Hinv].
  destruct (episode_result (recording t) s) as [score|x].
  - rewrite epoch_and_stop_checks_closed. cbn [snd].
    set (t1 := before_checks a e s score t).
    assert (H1 : _epoch t1 = _epoch t /\ _epoch_size t1 = _epoch_size t
                 /\ _timestep t1 = _timestep t + steps s)
      by (subst t1; destruct t; fields; cbv zeta; fields; repeat split; lia).
    destruct H1 as (He & Hs & Ht).
    destruct (epoch_due t1) eqn:Hdue.
    + apply epoch_due_iff in Hdue as [_ Hdue].
      replace (_epoch (set_epoch _ _)) with (_epoch t1 + 1)
        by (destruct t1; reflexivity).
      replace (_epoch_size (set_epoch _ _)) with (_epoch_size t1)
        by (destruct t1; reflexivity).
      replace (_timestep (set_epoch _ _)) with (_timestep t1)
        by (destruct t1; fields; lia).
      exact Hdue.
    + replace (_epoch (set_epoch _ _)) with (_epoch t1)
        by (destruct t1; reflexivity).
      replace (_epoch_size (set_epoch _ _)) with (_epoch_size t1)
        by (destruct t1; reflexivity).
      replace (_timestep (set_epoch _ _)) with (_timestep t1)
        by (destruct t1; fields; lia).
      rewrite He, Hs, Ht. lia.
  - cbn [snd].
    replace (_epoch (after_episode a e s t)) with (_epoch t)
      by (destruct t; reflexivity).
    replace (_epoch_size (after_episode a e s t)) with (_epoch_size t)
      by (destruct t; reflexivity).
    replace (_timestep (after_episode a e s t)) with (_timestep t + steps s)
      by (destruct t; fields; lia).
    lia.
Qed.

(** X5: the epoch counter never runs ahead of the steps taken.  For a
    trainer made by the constructor, with any settings, and after any
    sequence of calls, [epoch * epoch_size <= timestep]: an epoch is
    counted only once the time-step counter has reached its end. *)
Theorem epoch_never_ahead_of_timesteps (directory : option string)
    (env_name : string) (timesteps : Z) (epoch_size : option Z) (videos : Z)
    (experience : bool) (experience_maxlen : Z) (calls : list request) :
  let t := snd (session calls
                  (init directory env_name timesteps epoch_size videos
                     experience experience_maxlen)) in
  _epoch t * _epoch_size t <= _timestep t.
Proof.
  cbv zeta.
  set (t0 := init directory env_name timesteps epoch_size videos experience
               experience_maxlen).
  assert (H0 : _epoch t0 * _epoch_size t0 <= _timestep t0) by (cbn; lia).
  revert H0. generalize t0. clear t0.
  induction calls as [|c calls IH]; intros t Ht; [exact Ht|].
  rewrite session_cons. cbn [snd]. apply IH.
  now apply run_episode_epoch_bound.
Qed.

Lemma run_episode_returned (a : agent) (e : env) (s : episode_script)
    (t : trainer) :
  fst (run_episode a e s t) = Returned tt ->
  _running t = true
  /\ exists score,
       episode_result (recording t) s = Returned score
       /\ report_fails (before_checks a e s score t) = false.
Proof.
  rewrite run_episode_eq. destruct (_running t); [|discriminate].
  destruct (episode_result (recording t) s) as [score|x]; [|discriminate].
  rewrite epoch_and_stop_checks_closed. cbn [fst].
  destruct (report_fails _) eqn:Hfail; [discriminate|].
  intros _. split; [reflexivity|]. now exists score.
Qed.



Lemma report_fails_nonneg (t : trainer) :
  0 <= _epoch_size t -> _scores t <> [] -> report_fails t = false.
Proof.
  intros Hn Hl. unfold report_fails, average.
  pose proof (slice_from_nonempty (_epoch_size t) (_scores t) Hn Hl) as Hne.
  destruct (slice_from _ _); [contradiction|]. apply andb_false_r.
Qed.

Lemma slice_from_beyond {A} (start : Z) (l : list A) :
  Z.of_nat (List.length l) <= start -> slice_from start l = [].
Proof.
  intro H. unfold slice_from.
  destruct (start <? 0) eqn:Hneg; [apply Z.ltb_lt in Hneg; lia|].
  rewrite Z.min_r by lia. rewrite Nat2Z.id. apply skipn_all.
Qed.

(** X8: the constructor accepts a negative epoch size.  If it is at most
    [-(n + 1)], where [n] is the number of scores so far, a call whose
    episode completes finds an empty averaging window: it raises
    [ZeroDivisionError] after the score was appended and the epoch
    counted, prints no report, and skips the budget test, so the session
    is not shut down by this call even if the budget is spent. *)
Theorem negative_epoch_size_divides_by_zero (a : agent) (e : env)
    (s : episode_script) (t : trainer) :
  _running t = true ->
  completes (recording t) s = true ->
  0 <= _epoch t -> 0 <= _timestep t ->
  _epoch_size t <= - Z.of_nat (S (List.length (_scores t))) ->
  let t' := snd (run_episode a e s t) in
  fst (run_episode a e s t) = Raised ZeroDivisionError
  /\ _scores t' = _scores t ++ [sum (performed s)]
  /\ _epoch t' = _epoch t + 1
  /\ _running t' = true
  /\ count is_print (gained t t') = 0%nat
  /\ count is_stop_entry (gained t t') = 0%nat.
Proof.
  intros Hrun Hc Hepoch Htime Hsize. cbv zeta.
  destruct (completes_result _ _ Hc) as (Hres & _).
  rewrite run_episode_gained. unfold call_events. rewrite Hrun, Hres.
  rewrite run_episode_completes_eq, epoch_and_stop_checks_closed by assumption.
  set (t1 := before_checks a e s (sum (performed s)) t).
  pose proof (steps_nonneg s) as Hsteps.
  assert (H1 : _running t1 = true /\ _epoch t1 = _epoch t
               /\ _epoch_size t1 = _epoch_size t
               /\ _timestep t1 = _timestep t + steps s
               /\ _scores t1 = _scores t ++ [sum (performed s)]).
  { subst t1; destruct t; fields; cbv zeta; fields; cbn in Hrun.
    repeat split; try assumption; lia. }
  destruct H1 as (Hr1 & He1 & Hs1 & Ht1 & Hsc1).
  assert (Hdue : epoch_due t1 = true).
  { apply epoch_due_iff. split; [assumption|]. rewrite He1, Hs1, Ht1. nia. }
  assert (Hwin : slice_from (- _epoch_size t1) (_scores t1) = []).
  { apply slice_from_beyond. rewrite Hsc1, Hs1, length_app. cbn [List.length].
    lia. }
  assert (Hfail : report_fails t1 = true)
    by (unfold report_fails; now rewrite Hdue, Hwin).
  assert (Hshut : shuts_down t1 = false)
    by (unfold shuts_down; now rewrite Hfail).
  rewrite Hfail, Hdue, Hshut. cbn [fst snd].
  split; [reflexivity|]. split; [destruct t1; cbn in *; assumption|].
  split; [destruct t1; cbn in *; lia|].
  split; [destruct t1; cbn in *; assumption|].
  change (Release (EnvLock e) :: ScoresAppend ?q :: ?l)
    with ([Release (EnvLock e); ScoresAppend q] ++ l).
  rewrite !count_app.
  assert (Hchecks : checks_events t1
                    = [Acquire SessionLock; Release SessionLock]).
  { unfold checks_events, report_events, shutdown_events.
    now rewrite Hdue, Hwin, Hshut. }
  rewrite Hchecks. split.
  - rewrite (count_none is_print is_episode_event
               (episode_events e a (recording t) (_experience_maxlen t)
                  (_episode t) s));
      [reflexivity|apply forallb_episode_events|now intros []].
  - now rewrite episode_events_no_stop_entry.
Qed.

Lemma negative_epoch_size_divides_by_zero_witness :
  let t' := snd (run_episode 0%nat (GymEnv 0) (stopping [1; 1]%Q)
                   backwards_pong) in
  fst (run_episode 0%nat (GymEnv 0) (stopping [1; 1]%Q) backwards_pong)
  = Raised ZeroDivisionError
  /\ _scores t' = _scores backwards_pong ++ [sum (performed (stopping [1; 1]%Q))]
  /\ _epoch t' = _epoch backwards_pong + 1
  /\ _running t' = true
  /\ count is_print (gained backwards_pong t') = 0%nat
  /\ count is_stop_entry (gained backwards_pong t') = 0%nat.
Proof.
  apply (negative_epoch_size_divides_by_zero 0%nat (GymEnv 0)
           (stopping [1; 1]%Q) backwards_pong);
    try reflexivity; vm_compute; discriminate.
Defined.

(** ** Shutting down *)

Lemma filter_none (p q : event -> bool) (l : list event) :
  forallb q l = true ->
  (forall ev, q ev = true -> p ev = false) ->
  filter p l = [].
Proof.
  intros Hall Hpq. induction l as [|ev l IH]; [reflexivity|].
  cbn [forallb] in Hall. apply andb_true_iff in Hall as [Hev Hl].
  cbn [filter]. rewrite (Hpq ev Hev). now apply IH.
Qed.

Lemma filter_save_close_events (envs : list env) :
  filter is_save_scores (close_events envs) = [].
Proof. induction envs as [|e envs IH]; [reflexivity|exact IH]. Qed.

Lemma count_close_of_close_events (e : env) (envs : list env) :
  count (is_close_of e) (close_events envs) = count_occ env_eq_dec envs e.
Proof.
  induction envs as [|e' envs IH]; [reflexivity|].
  cbn [close_events flat_map]. rewrite count_app. fold (close_events envs).
  rewrite IH. cbn [count_occ]. unfold count. cbn [filter is_close_of].
  destruct (env_eq_dec e e') as [Heq|Hne];
    destruct (env_eq_dec e' e) as [Heq'|Hne'];
    try reflexivity; exfalso; auto.
Qed.

(** ** The shutdown when a collaborator fails *)

Lemma with_lock_call_eq (l : lock_id) (ev : event) (reply : option exn)
    (t : trainer) :
  with_lock l (call ev reply) t
  = (reply_result reply, with_steps 0 [Acquire l; ev; Release l] t).
Proof. destruct t, reply; plumbing; same_state. Qed.

Lemma close_all_eq (envs : list env) :
  forall (replies : list (option exn)) (t : trainer),
    close_all envs replies t
    = (reply_result (close_all_failure envs replies),
       with_steps 0 (close_all_events envs replies) t).
Proof.
  induction envs as [|e envs IH]; intros replies t.
  - cbn. unfold ret. now rewrite with_steps_nil.
  - cbn [close_all close_all_failure close_all_events]. unfold bind at 1.
    rewrite with_lock_call_eq.
    destruct (hd None replies) as [x|]; cbn [reply_result].
    + reflexivity.
    + rewrite IH, with_steps_with_steps. reflexivity.
Qed.

Lemma _store_scores_with_eq (reply : option exn) (t : trainer) :
  _store_scores_with reply t
  = (if truthy_directory (_directory t) then reply_result reply
     else Returned tt,
     with_steps 0 (store_events t) t).
Proof.
  unfold _store_scores_with. destruct t; plumbing; fields.
  destruct (truthy_directory _); [destruct reply|]; plumbing; same_state.
Qed.

Lemma _stop_training_with_eq (sh : shutdown_script) (t : trainer) :
  _stop_training_with sh t
  = (stop_result sh t,
     set_running false (with_steps 0 (stop_events_with sh t) t)).
Proof.
  unfold _stop_training_with, stop_result, stop_events_with.
  unfold bind at 1. unfold emit at 1, modify at 1.
  unfold bind at 1. unfold modify at 1.
  unfold bind at 1. unfold get at 1.
  unfold bind at 1.
  rewrite close_all_eq.
  replace (_envs (set_running false _)) with (_envs t)
    by (destruct t; reflexivity).
  destruct (close_all_failure (_envs t) (on_close sh)) as [x|];
    cbn [reply_result].
  - destruct t; same_state.
  - rewrite _store_scores_with_eq. destruct t; same_state.
Qed.

(** When every [env.close()] returns, the loop closes the whole registry. *)
Lemma close_all_returns (envs : list env) :
  forall replies : list (option exn),
    (forall i, (i < List.length envs)%nat -> nth i replies None = None) ->
    close_all_failure envs replies = None
    /\ close_all_events envs replies = close_events envs.
Proof.
  induction envs as [|e envs IH]; intros replies Hall; [now split|].
  cbn [close_all_failure close_all_events close_events flat_map app].
  assert (H0 : hd None replies = None).
  { specialize (Hall 0%nat ltac:(cbn; lia)). now destruct replies. }
  rewrite H0.
  destruct (IH (tl replies)) as [Hf Hev].
  { intros i Hi. specialize (Hall (S i) ltac:(cbn; lia)).
    destruct replies; [now destruct i|exact Hall]. }
  split; [exact Hf|]. now rewrite Hev.
Qed.

(** When the [k]-th [env.close()] is the first to raise, the loop ends
    there. *)
Lemma close_all_fails (envs : list env) :
  forall (replies : list (option exn)) (k : nat) (x : exn),
    (k < List.length envs)%nat ->
    nth k replies None = Some x ->
    (forall i, (i < k)%nat -> nth i replies None = None) ->
    close_all_failure envs replies = Some x
    /\ close_all_events envs replies = close_events (firstn (S k) envs).
Proof.
  induction envs as [|e envs IH]; intros replies k x Hk Hx Hbefore;
    [cbn in Hk; lia|].
  cbn [close_all_failure close_all_events].
  destruct k as [|k].
  - assert (H0 : hd None replies = Some x) by (now destruct replies).
    rewrite H0. split; [reflexivity|]. now destruct envs.
  - assert (H0 : hd None replies = None).
    { specialize (Hbefore 0%nat ltac:(lia)). now destruct replies. }
    rewrite H0.
    destruct (IH (tl replies) k x) as [Hf Hev].
    + cbn in Hk; lia.
    + destruct replies; [discriminate|exact Hx].
    + intros i Hi. specialize (Hbefore (S i) ltac:(lia)).
      destruct replies; [now destruct i|exact Hbefore].
    + split; [exact Hf|]. rewrite Hev. reflexivity.
Qed.

Lemma stop_result_quiet (t : trainer) : stop_result quiet t = Returned tt.
Proof.
  unfold stop_result.
  destruct (close_all_returns (_envs t) (on_close quiet)) as [Hf _].
  { intros i _. now destruct i. }
  rewrite Hf. now destruct (truthy_directory _).
Qed.

Lemma stop_events_with_quiet (t : trainer) :
  stop_events_with quiet t = stop_events t.
Proof.
  unfold stop_events_with, stop_events.
  destruct (close_all_returns (_envs t) (on_close quiet)) as [Hf Hev].
  { intros i _. now destruct i. }
  now rewrite Hf, Hev.
Qed.

(** The shutdown in which nothing raises is [_stop_training]. *)
Lemma _stop_training_with_quiet (t : trainer) :
  _stop_training_with quiet t = _stop_training t.
Proof.
  now rewrite _stop_training_with_eq, _stop_training_eq, stop_result_quiet,
    stop_events_with_quiet.
Qed.

Lemma epoch_and_stop_checks_with_eq (sh : shutdown_script) (t : trainer) :
  epoch_and_stop_checks_with sh t
  = let t1 := with_steps 0 [Acquire SessionLock] t in
    let '(r, t2) :=
      if epoch_due t then _next_epoch t1 else (Returned tt, t1) in
    let '(r', t3) :=
      match r with
      | Returned _ =>
          if budget_spent t then _stop_training_with sh t2
          else (Returned tt, t2)
      | Raised x => (Raised x, t2)
      end in
    (r', with_steps 0 [Release SessionLock] t3).
Proof.
  unfold epoch_and_stop_checks_with, with_lock. rewrite emit_eq.
  cbv zeta. set (t1 := with_steps 0 [Acquire SessionLock] t).
  rewrite bind_get, bind_get, bind_get.
  replace (_running t1 && (_timestep t1 >=? (_epoch t1 + 1) * _epoch_size t1))%bool
    with (epoch_due t) by (subst t1; destruct t; fields; now rewrite ?Z.add_0_r).
  assert (Hstop : forall u, _timestep u = _timestep t -> _timesteps u = _timesteps t ->
     (timestep <- get _timestep ;; timesteps <- get _timesteps ;;
      when (timestep >=? timesteps) (_stop_training_with sh)) u
     = if budget_spent t then _stop_training_with sh u else (Returned tt, u)).
  { intros u H1 H2. rewrite !bind_get, H1, H2. unfold budget_spent.
    now destruct (_timestep t >=? _timesteps t). }
  unfold bind at 1.
  destruct (epoch_due t); cbn [when].
  - rewrite _next_epoch_eq.
    destruct (average _) as [avg|x].
    + rewrite Hstop by (subst t1; destruct t; fields; now rewrite ?Z.add_0_r).
      destruct (budget_spent t).
      * rewrite _stop_training_with_eq, emit_eq. reflexivity.
      * rewrite emit_eq. reflexivity.
    + rewrite emit_eq. reflexivity.
  - unfold ret at 1. rewrite Hstop by (subst t1; destruct t; fields; now rewrite ?Z.add_0_r).
    destruct (budget_spent t).
    + rewrite _stop_training_with_eq, emit_eq. reflexivity.
    + rewrite emit_eq. reflexivity.
Qed.

Lemma epoch_and_stop_checks_with_closed (sh : shutdown_script) (t : trainer) :
  epoch_and_stop_checks_with sh t
  = (if report_fails t then Raised ZeroDivisionError
     else if budget_spent t then stop_result sh t else Returned tt,
     set_epoch (if epoch_due t then _epoch t + 1 else _epoch t)
       (set_running (if shuts_down t then false else _running t)
          (with_steps 0 (checks_events_with sh t) t))).
Proof.
  rewrite epoch_and_stop_checks_with_eq. cbv zeta.
  unfold checks_events_with, shuts_down, report_events, report_fails.
  destruct (epoch_due t); cbn [andb negb].
  - rewrite _next_epoch_eq.
    replace (_epoch_size (with_steps 0 [Acquire SessionLock] t))
      with (_epoch_size t) by (destruct t; reflexivity).
    replace (_scores (with_steps 0 [Acquire SessionLock] t))
      with (_scores t) by (destruct t; reflexivity).
    unfold average.
    destruct (slice_from (- _epoch_size t) (_scores t)) as [|q l]; cbn [negb andb].
    + destruct t; same_state.
    + destruct (budget_spent t); [rewrite _stop_training_with_eq|];
        unfold stop_result, stop_events_with;
        destruct t; same_state.
  - destruct (budget_spent t); [rewrite _stop_training_with_eq|];
      unfold stop_result, stop_events_with;
      destruct t; same_state.
Qed.

Lemma run_episode_with_eq (sh : shutdown_script) (a : agent) (e : env)
    (s : episode_script) (t : trainer) :
  run_episode_with sh a e s t
  = if _running t then
      match episode_result (recording t) s with
      | Returned score =>
          epoch_and_stop_checks_with sh (before_checks a e s score t)
      | Raised x => (Raised x, after_episode a e s t)
      end
    else (Raised StopTraining, t).
Proof.
  unfold run_episode_with.
  unfold bind at 1. rewrite check_running_eq.
  destruct (_running t) eqn:Hrun; [ | reflexivity ].
  unfold bind at 1. rewrite allocate_episode_eq.
  unfold bind at 1. rewrite locked_episode_eq.
  replace (recording (set_episode _ _)) with (recording t)
    by (destruct t; reflexivity).
  replace (_experience_maxlen (set_episode _ _)) with (_experience_maxlen t)
    by (destruct t; reflexivity).
  destruct (episode_result (recording t) s) as [score|x].
  - unfold bind at 1. rewrite append_score_eq. f_equal.
    unfold before_checks, after_episode. destruct t; same_state.
  - f_equal. unfold after_episode. destruct t; same_state.
Qed.

(** With a shutdown in which nothing raises, the two models of
    [run_episode] agree. *)
Lemma run_episode_with_quiet (a : agent) (e : env) (s : episode_script)
    (t : trainer) :
  run_episode_with quiet a e s t = run_episode a e s t.
Proof.
  rewrite run_episode_with_eq, run_episode_eq.
  destruct (_running t); [|reflexivity].
  destruct (episode_result (recording t) s) as [score|x]; [|reflexivity].
  rewrite epoch_and_stop_checks_with_eq, epoch_and_stop_checks_eq. cbv zeta.
  destruct (if epoch_due _ then _ else _) as [[[]|x] t2]; [|reflexivity].
  destruct (budget_spent _); [|reflexivity].
  now rewrite _stop_training_with_quiet.
Qed.

Lemma replay_locks_close_all_events (envs : list env) :
  forall (replies : list (option exn)) (rest : list event),
    replay_locks [SessionLock] (close_all_events envs replies ++ rest)
    = replay_locks [SessionLock] rest.
Proof.
  induction envs as [|e envs IH]; intros replies rest; [reflexivity|].
  cbn [close_all_events app].
  rewrite replay_locks_acquire by (intros [H|[]]; discriminate H).
  rewrite replay_locks_other by reflexivity.
  rewrite replay_locks_release.
  destruct (hd None replies); [reflexivity|apply IH].
Qed.

Lemma filter_close_close_events (envs : list env) :
  filter is_close (close_events envs) = map EnvClose envs.
Proof.
  induction envs as [|e envs IH]; [reflexivity|].
  cbn [close_events flat_map app filter is_close map].
  fold (close_events envs). now rewrite IH.
Qed.

Lemma close_all_failure_in (envs : list env) :
  forall (replies : list (option exn)) (x : exn),
    close_all_failure envs replies = Some x -> In (Some x) replies.
Proof.
  induction envs as [|e envs IH]; intros replies x H; [discriminate H|].
  cbn [close_all_failure] in H.
  destruct replies as [|[y|] replies]; cbn [hd tl] in H.
  - apply IH in H. destruct H.
  - injection H as ->. now left.
  - right. now apply IH.
Qed.

Lemma gained_stop_training_with (sh : shutdown_script) (t : trainer) :
  gained t (snd (_stop_training_with sh t)) = stop_events_with sh t.
Proof.
  rewrite _stop_training_with_eq. cbn [snd].
  destruct t; fields. apply skipn_length_app.
Qed.

Lemma run_episode_with_gained (sh : shutdown_script) (a : agent) (e : env)
    (s : episode_script) (t : trainer) :
  _running t = true ->
  completes (recording t) s = true ->
  gained t (snd (run_episode_with sh a e s t))
  = Acquire SessionLock :: Release SessionLock :: Acquire (EnvLock e)
    :: episode_events e a (recording t) (_experience_maxlen t) (_episode t) s
    ++ Release (EnvLock e) :: ScoresAppend (sum (performed s))
       :: checks_events_with sh (before_checks a e s (sum (performed s)) t).
Proof.
  intros Hrun Hc. destruct (completes_result _ _ Hc) as (Hres & _).
  rewrite run_episode_with_eq, Hrun, Hres, epoch_and_stop_checks_with_closed.
  cbn [snd].
  generalize (checks_events_with sh (before_checks a e s (sum (performed s)) t)).
  intro rest. unfold gained.
  replace (trace (set_epoch _ _))
    with (trace t
          ++ Acquire SessionLock :: Release SessionLock :: Acquire (EnvLock e)
             :: episode_events e a (recording t) (_experience_maxlen t)
                  (_episode t) s
             ++ Release (EnvLock e) :: ScoresAppend (sum (performed s)) :: rest).
  - apply skipn_length_app.
  - destruct t; fields; cbv zeta; fields; lists. reflexivity.
Qed.

Lemma before_checks_fields (a : agent) (e : env) (s : episode_script)
    (score : Q) (t : trainer) :
  let t1 := before_checks a e s score t in
  _running t1 = _running t
  /\ _epoch t1 = _epoch t
  /\ _epoch_size t1 = _epoch_size t
  /\ _timestep t1 = _timestep t + steps s
  /\ _timesteps t1 = _timesteps t
  /\ _directory t1 = _directory t
  /\ _envs t1 = _envs t
  /\ _scores t1 = _scores t ++ [score].
Proof.
  cbv zeta. destruct t; fields; cbv zeta; fields. repeat split; lia.
Qed.

Lemma filter_save_scores_call (sh : shutdown_script) (a : agent) (e : env)
    (s : episode_script) (t : trainer) :
  _running t = true ->
  completes (recording t) s = true ->
  0 <= _epoch_size t ->
  let t1 := before_checks a e s (sum (performed s)) t in
  fst (run_episode_with sh a e s t)
  = (if budget_spent t1 then stop_result sh t1 else Returned tt)
  /\ filter is_save_scores (gained t (snd (run_episode_with sh a e s t)))
     = if budget_spent t1
       then filter is_save_scores (stop_events_with sh t1)
       else [].
Proof.
  intros Hrun Hc Hsize. cbv zeta.
  rewrite run_episode_with_gained by assumption.
  destruct (completes_result _ _ Hc) as (Hres & _).
  rewrite run_episode_with_eq, Hrun, Hres, epoch_and_stop_checks_with_closed.
  cbn [fst].
  set (t1 := before_checks a e s (sum (performed s)) t).
  destruct (before_checks_fields a e s (sum (performed s)) t)
    as (_ & _ & Hs1 & _ & _ & _ & _ & Hsc1).
  fold t1 in Hs1, Hsc1.
  assert (Hfail : report_fails t1 = false).
  { apply report_fails_nonneg; [now rewrite Hs1|].
    rewrite Hsc1. now destruct (_scores t). }
  rewrite Hfail. split; [reflexivity|].
  cbn [filter is_save_scores]. rewrite filter_app.
  rewrite (filter_none is_save_scores is_episode_event
             (episode_events e a (recording t) (_experience_maxlen t)
                (_episode t) s));
    [|apply forallb_episode_events|now intros []].
  cbn [app filter is_save_scores].
  unfold checks_events_with. cbn [filter is_save_scores]. rewrite !filter_app.
  replace (filter is_save_scores (report_events t1)) with (@nil event).
  2:{ unfold report_events.
      destruct (epoch_due t1); [destruct (average _)|]; reflexivity. }
  unfold shuts_down. rewrite Hfail. cbn [negb andb app filter is_save_scores].
  destruct (budget_spent t1); [apply app_nil_r|reflexivity].
Qed.

(** X7: with an epoch size that is not negative, the epoch report never
    divides by zero.  A call on a running trainer whose episode completes
    returns normally if it stays under the budget, and also if it shuts the
    session down and neither [env.close()] nor [np.save] raises; an
    exception that leaves the call is one that [env.close()] or [np.save]
    raised. *)
Theorem completed_episode_returns (sh : shutdown_script) (a : agent)
    (e : env) (s : episode_script) (t : trainer) :
  0 <= _epoch_size t ->
  _running t = true ->
  completes (recording t) s = true ->
  let r := fst (run_episode_with sh a e s t) in
  (_timestep t + steps s < _timesteps t -> r = Returned tt)
  /\ ((forall i, (i < List.length (_envs t))%nat ->
                 nth i (on_close sh) None = None) ->
      on_store sh = None -> r = Returned tt)
  /\ (forall x, r = Raised x ->
        _timesteps t <= _timestep t + steps s
        /\ (In (Some x) (on_close sh) \/ on_store sh = Some x)).
Proof.
  intros Hsize Hrun Hc. cbv zeta.
  destruct (filter_save_scores_call sh a e s t Hrun Hc Hsize) as [Hr _].
  rewrite Hr. clear Hr.
  destruct (before_checks_fields a e s (sum (performed s)) t)
    as (_ & _ & _ & Ht1 & Hb1 & Hd1 & He1 & _).
  unfold budget_spent, stop_result. rewrite Ht1, Hb1, Hd1, He1.
  destruct (_timestep t + steps s >=? _timesteps t) eqn:Hb.
  - apply Z.geb_le in Hb. split; [lia|]. split.
    + intros Hall Hstore.
      destruct (close_all_returns _ _ Hall) as [Hf _].
      rewrite Hf, Hstore. now destruct (truthy_directory _).
    + intros x Hx. split; [exact Hb|].
      destruct (close_all_failure _ _) as [y|] eqn:Hf.
      * injection Hx as ->. left. eapply close_all_failure_in. exact Hf.
      * destruct (truthy_directory _); [|discriminate Hx].
        destruct (on_store sh) as [y|]; [|discriminate Hx].
        injection Hx as ->. now right.
  - split; [reflexivity|]. split; [reflexivity|]. discriminate.
Qed.

Lemma completed_episode_returns_witness :
  (0 <= _epoch_size tiny_pong
   /\ _timestep tiny_pong + steps (stopping [1]%Q) < _timesteps tiny_pong
   /\ fst (run_episode_with failing_first_close 0%nat (GymEnv 0)
             (stopping [1]%Q) tiny_pong) = Returned tt)
  /\
  (0 <= _epoch_size wrapped_pong
   /\ fst (run_episode_with disk_full 0%nat first_env (stopping [1; 1]%Q)
             wrapped_pong) = Raised (Fault 8)
   /\ _timesteps wrapped_pong
      <= _timestep wrapped_pong + steps (stopping [1; 1]%Q)
   /\ (In (Some (Fault 8)) (on_close disk_full)
       \/ on_store disk_full = Some (Fault 8))).
Proof.
  assert (H0 : 0 <= _epoch_size tiny_pong) by (vm_compute; discriminate).
  assert (H1 : _timestep tiny_pong + steps (stopping [1]%Q)
               < _timesteps tiny_pong) by (vm_compute; reflexivity).
  assert (H2 : 0 <= _epoch_size wrapped_pong) by (vm_compute; discriminate).
  assert (H3 : fst (run_episode_with disk_full 0%nat first_env
                      (stopping [1; 1]%Q) wrapped_pong) = Raised (Fault 8))
    by (vm_compute; reflexivity).
  split.
  - split; [exact H0|]. split; [exact H1|].
    exact (proj1 (completed_episode_returns failing_first_close 0%nat
                    (GymEnv 0) (stopping [1]%Q) tiny_pong
                    H0 eq_refl eq_refl) H1).
  - split; [exact H2|]. split; [exact H3|].
    exact (proj2 (proj2 (completed_episode_returns disk_full 0%nat first_env
                           (stopping [1; 1]%Q) wrapped_pong
                           H2 eq_refl eq_refl)) (Fault 8) H3).
Defined.

(** X9: when a results directory is set and the epoch size is not
    negative, a call whose episode completes calls [np.save] exactly if its
    steps bring the time-step counter to the budget and every
    [env.close()] of the shutdown returns; what it hands to [np.save] is
    the whole score list including the score of this very episode, and the
    call ends as [np.save] ends.  A call that stays under the budget saves
    nothing and returns.  If an [env.close()] raises during the shutdown,
    the scores are not saved and the call raises that exception. *)
Theorem budget_spending_call_saves_all_scores (sh : shutdown_script)
    (a : agent) (e : env) (s : episode_script) (t : trainer) :
  _running t = true ->
  completes (recording t) s = true ->
  0 <= _epoch_size t ->
  truthy_directory (_directory t) = true ->
  let r := fst (run_episode_with sh a e s t) in
  let saved :=
    filter is_save_scores (gained t (snd (run_episode_with sh a e s t))) in
  (_timestep t + steps s < _timesteps t -> saved = [] /\ r = Returned tt)
  /\ (_timesteps t <= _timestep t + steps s ->
      (forall i, (i < List.length (_envs t))%nat ->
                 nth i (on_close sh) None = None) ->
      saved = [SaveScores (_scores t ++ [sum (performed s)])]
      /\ r = reply_result (on_store sh))
  /\ (_timesteps t <= _timestep t + steps s ->
      forall (k : nat) (x : exn),
        (k < List.length (_envs t))%nat ->
        nth k (on_close sh) None = Some x ->
        (forall i, (i < k)%nat -> nth i (on_close sh) None = None) ->
        saved = [] /\ r = Raised x).
Proof.
  intros Hrun Hc Hsize Hdir. cbv zeta.
  destruct (filter_save_scores_call sh a e s t Hrun Hc Hsize) as [Hr Hsaved].
  rewrite Hr, Hsaved. clear Hr Hsaved.
  destruct (before_checks_fields a e s (sum (performed s)) t)
    as (_ & _ & _ & Ht1 & Hb1 & Hd1 & He1 & Hsc1).
  unfold budget_spent, stop_result, stop_events_with, store_events.
  rewrite Ht1, Hb1, Hd1, He1, Hsc1, Hdir.
  destruct (_timestep t + steps s >=? _timesteps t) eqn:Hb.
  - apply Z.geb_le in Hb. split; [lia|]. split.
    + intros _ Hall. destruct (close_all_returns _ _ Hall) as [Hf Hev].
      rewrite Hf, Hev. cbn [filter is_save_scores].
      rewrite filter_app, filter_save_close_events. now split.
    + intros _ k x Hk Hx Hbefore.
      destruct (close_all_fails _ _ k x Hk Hx Hbefore) as [Hf Hev].
      rewrite Hf, Hev. cbn [filter is_save_scores].
      rewrite filter_app, filter_save_close_events. now split.
  - rewrite Z.geb_leb in Hb. apply Z.leb_gt in Hb.
    split; [now split|]. split; intro; lia.
Qed.

Lemma budget_spending_call_saves_all_scores_witness :
  (let r := fst (run_episode_with disk_full 0%nat first_env
                   (stopping [1; 1]%Q) wrapped_pong) in
   let saved :=
     filter is_save_scores
       (gained wrapped_pong
          (snd (run_episode_with disk_full 0%nat first_env
                  (stopping [1; 1]%Q) wrapped_pong))) in
   _timesteps wrapped_pong <= _timestep wrapped_pong + steps (stopping [1; 1]%Q)
   /\ saved = [SaveScores
                 (_scores wrapped_pong ++ [sum (performed (stopping [1; 1]%Q))])]
   /\ r = reply_result (on_store disk_full))
  /\
  (let r := fst (run_episode_with failing_first_close 0%nat first_env
                   (stopping [1; 1]%Q) wrapped_pong) in
   let saved :=
     filter is_save_scores
       (gained wrapped_pong
          (snd (run_episode_with failing_first_close 0%nat first_env
                  (stopping [1; 1]%Q) wrapped_pong))) in
   saved = [] /\ r = Raised (Fault 7))
  /\
  (let r := fst (run_episode_with failing_first_close 0%nat first_env
                   (stopping [1]%Q) wrapped_pong) in
   let saved :=
     filter is_save_scores
       (gained wrapped_pong
          (snd (run_episode_with failing_first_close 0%nat first_env
                  (stopping [1]%Q) wrapped_pong))) in
   _timestep wrapped_pong + steps (stopping [1]%Q) < _timesteps wrapped_pong
   /\ saved = [] /\ r = Returned tt).
Proof.
  cbv zeta.
  assert (Hsize : 0 <= _epoch_size wrapped_pong) by (vm_compute; discriminate).
  assert (Hb : _timesteps wrapped_pong
               <= _timestep wrapped_pong + steps (stopping [1; 1]%Q))
    by (vm_compute; discriminate).
  assert (Hunder : _timestep wrapped_pong + steps (stopping [1]%Q)
                   < _timesteps wrapped_pong) by (vm_compute; reflexivity).
  assert (Hall : forall i, (i < List.length (_envs wrapped_pong))%nat ->
                           nth i (on_close disk_full) None = None)
    by (intros [|[|i]] _; reflexivity).
  assert (Hk : (0 < List.length (_envs wrapped_pong))%nat)
    by (vm_compute; lia).
  assert (Hbefore : forall i, (i < 0)%nat ->
                              nth i (on_close failing_first_close) None = None)
    by (intros i Hi; lia).
  split; [|split].
  - split; [exact Hb|].
    exact (proj1 (proj2 (budget_spending_call_saves_all_scores disk_full 0%nat
                           first_env (stopping [1; 1]%Q) wrapped_pong
                           eq_refl eq_refl Hsize eq_refl)) Hb Hall).
  - exact (proj2 (proj2 (budget_spending_call_saves_all_scores
                           failing_first_close 0%nat first_env
                           (stopping [1; 1]%Q) wrapped_pong
                           eq_refl eq_refl Hsize eq_refl))
             Hb 0%nat (Fault 7) Hk eq_refl Hbefore).
  - split; [exact Hunder|].
    exact (proj1 (budget_spending_call_saves_all_scores failing_first_close
                    0%nat first_env (stopping [1]%Q) wrapped_pong
                    eq_refl eq_refl Hsize eq_refl) Hunder).
Defined.

(** X10: whatever [env.close()] and [np.save] do, one run of
    [_stop_training] clears the running flag, changes nothing else but the
    trace, and releases every environment lock it took.  If every
    [env.close()] returns, each environment is closed exactly as often as
    it stands in the registry, in registry order; [np.save] is then called
    exactly if a directory is set, and the run ends as that call ends.  If
    the [k]-th [env.close()] is the first to raise, its exception leaves
    [_stop_training]: the environments up to and including the [k]-th have
    had [close] called, those behind it have not, and the scores are not
    saved. *)
Theorem _stop_training_closes_the_registry (sh : shutdown_script)
    (t : trainer) :
  let r := fst (_stop_training_with sh t) in
  let t' := snd (_stop_training_with sh t) in
  let closed := filter is_close (gained t t') in
  let saved := filter is_save_scores (gained t t') in
  _running t' = false
  /\ t' = set_running false (set_trace (trace t') t)
  /\ replay_locks [SessionLock] (gained t t') = Some [SessionLock]
  /\ ((forall i, (i < List.length (_envs t))%nat ->
                 nth i (on_close sh) None = None) ->
      closed = map EnvClose (_envs t)
      /\ (forall e, count (is_close_of e) (gained t t')
                    = count_occ env_eq_dec (_envs t) e)
      /\ saved = (if truthy_directory (_directory t)
                  then [SaveScores (_scores t)] else [])
      /\ r = (if truthy_directory (_directory t)
              then reply_result (on_store sh) else Returned tt))
  /\ (forall (k : nat) (x : exn),
        (k < List.length (_envs t))%nat ->
        nth k (on_close sh) None = Some x ->
        (forall i, (i < k)%nat -> nth i (on_close sh) None = None) ->
        closed = map EnvClose (firstn (S k) (_envs t))
        /\ saved = []
        /\ r = Raised x).
Proof.
  cbv zeta. rewrite gained_stop_training_with.
  rewrite _stop_training_with_eq. cbn [fst snd].
  unfold stop_events_with, stop_result.
  split; [destruct t; reflexivity|].
  split; [destruct t; same_state|].
  split.
  { rewrite replay_locks_other by reflexivity.
    rewrite replay_locks_close_all_events.
    unfold store_events.
    destruct (close_all_failure _ _); [reflexivity|].
    now destruct (truthy_directory _). }
  split.
  - intro Hall.
    destruct (close_all_returns _ _ Hall) as [Hf Hev]. rewrite Hf, Hev.
    unfold store_events.
    cbn [filter is_close is_save_scores]. rewrite !filter_app.
    rewrite filter_close_close_events, filter_save_close_events.
    repeat split.
    + destruct (truthy_directory _); cbn; now rewrite app_nil_r.
    + intro e.
      change (StopTrainingEntered :: ?l) with ([StopTrainingEntered] ++ l).
      rewrite !count_app, count_close_of_close_events.
      destruct (truthy_directory _); cbn; lia.
    + now destruct (truthy_directory _).
  - intros k x Hk Hx Hbefore.
    destruct (close_all_fails _ _ k x Hk Hx Hbefore) as [Hf Hev].
    rewrite Hf, Hev.
    cbn [filter is_close is_save_scores]. rewrite !app_nil_r.
    rewrite filter_close_close_events, filter_save_close_events.
    repeat split.
Qed.

Lemma _stop_training_closes_the_registry_witness :
  (let t := wrapped_pong in
   let t' := snd (_stop_training_with disk_full t) in
   (forall i, (i < List.length (_envs t))%nat ->
              nth i (on_close disk_full) None = None)
   /\ filter is_close (gained t t') = map EnvClose (_envs t)
   /\ fst (_stop_training_with disk_full t) = Raised (Fault 8))
  /\
  (let t := wrapped_pong in
   let t' := snd (_stop_training_with failing_first_close t) in
   (0 < List.length (_envs t))%nat
   /\ nth 0 (on_close failing_first_close) None = Some (Fault 7)
   /\ filter is_close (gained t t') = map EnvClose (firstn 1 (_envs t))
   /\ filter is_save_scores (gained t t') = []
   /\ fst (_stop_training_with failing_first_close t) = Raised (Fault 7)).
Proof.
  cbv zeta.
  assert (Hall : forall i, (i < List.length (_envs wrapped_pong))%nat ->
                           nth i (on_close disk_full) None = None)
    by (intros [|[|i]] _; reflexivity).
  assert (Hk : (0 < List.length (_envs wrapped_pong))%nat)
    by (vm_compute; lia).
  assert (Hx : nth 0 (on_close failing_first_close) None = Some (Fault 7))
    by reflexivity.
  assert (Hbefore : forall i, (i < 0)%nat ->
                              nth i (on_close failing_first_close) None = None)
    by (intros i Hi; lia).
  destruct (_stop_training_closes_the_registry disk_full wrapped_pong)
    as (_ & _ & _ & Hquiet & _).
  destruct (_stop_training_closes_the_registry failing_first_close wrapped_pong)
    as (_ & _ & _ & _ & Hfail).
  destruct (Hquiet Hall) as (Hclosed & _ & _ & Hr).
  destruct (Hfail 0%nat (Fault 7) Hk Hx Hbefore) as (Hclosed' & Hsaved' & Hr').
  split.
  - split; [exact Hall|]. split; [exact Hclosed|]. exact Hr.
  - split; [exact Hk|]. split; [exact Hx|]. split; [exact Hclosed'|].
    split; [exact Hsaved'|exact Hr'].
Defined.

(** ** Sessions *)

Lemma episode_result_score (rec : bool) (s : episode_script) (score : Q) :
  episode_result rec s = Returned score -> score = sum (performed s).
Proof.
  unfold episode_result, performed.
  destruct (on_start s); [discriminate|].
  destruct (try_exn s); try discriminate.
  destruct (on_stop s); [discriminate|].
  destruct (if rec then on_save s else None); [discriminate|].
  congruence.
Qed.

Lemma run_episode_scores (a : agent) (e : env) (s : episode_script)
    (t : trainer) :
  fst (run_episode a e s t) = Returned tt ->
  _scores (snd (run_episode a e s t)) = _scores t ++ [sum (performed s)].
Proof.
  intro Hret.
  destruct (run_episode_returned a e s t Hret) as (Hrun & score & Hres & _).
  rewrite run_episode_eq, Hrun, Hres, epoch_and_stop_checks_closed.
  cbn [snd]. apply episode_result_score in Hres. subst score.
  destruct t; reflexivity.
Qed.

(** X11: after a sequence of calls made one after the other that all
    returned normally, the score list has grown by exactly the scores of
    their episodes, in the order of the calls. *)
Theorem session_scores_in_call_order (calls : list request) (t : trainer) :
  Forall (fun r => r = Returned tt) (fst (session calls t)) ->
  _scores (snd (session calls t)) = _scores t ++ map score_of calls.
Proof.
  revert t. induction calls as [|c calls IH]; intros t Hall.
  - cbn. now rewrite app_nil_r.
  - rewrite session_cons in *. cbn [fst snd] in *.
    inversion Hall as [|r rs Hr Hrs]; subst.
    rewrite (IH _ Hrs), (run_episode_scores _ _ _ _ Hr).
    cbn [map]. unfold score_of at 2. now rewrite <- app_assoc.
Qed.

Lemma session_scores_in_call_order_witness :
  let calls := [Request 0%nat (GymEnv 0) (stopping [1; 2]%Q);
                Request 1%nat (GymEnv 1) (stopping [5]%Q);
                Request 0%nat (GymEnv 0) (stopping []%Q)] in
  Forall (fun r => r = Returned tt) (fst (session calls pong))
  /\ _scores (snd (session calls pong)) = _scores pong ++ map score_of calls.
Proof.
  intro calls.
  assert (Hall : Forall (fun r => r = Returned tt) (fst (session calls pong)))
    by (vm_compute; repeat constructor).
  split; [exact Hall|].
  exact (session_scores_in_call_order calls pong Hall).
Defined.

(** X12: once the running flag is false the trainer is inert: every
    further call, in any number, raises [StopTraining], and the whole
    state, trace included, stays as it was. *)
Theorem stopped_trainer_is_inert (calls : list request) (t : trainer) :
  _running t = false ->
  session calls t = (map (fun _ => Raised StopTraining) calls, t).
Proof.
  intro Hstop. induction calls as [|c calls IH]; [reflexivity|].
  cbn [session map]. rewrite run_episode_eq, Hstop, IH. reflexivity.
Qed.

Lemma stopped_trainer_is_inert_witness :
  let calls := [Request 0%nat (GymEnv 0) (stopping [1]%Q);
                Request 1%nat (GymEnv 1) (crashing [1; 1]%Q)] in
  session calls stopped_pong
  = (map (fun _ => Raised StopTraining) calls, stopped_pong).
Proof.
  intro calls. apply stopped_trainer_is_inert. reflexivity.
Defined.

(** ** Episode ids under overlapping calls *)

Lemma thread_step_episode (th : thread) (t : trainer) :
  let th' := fst (thread_step th t) in
  let t' := snd (thread_step th t) in
  match th_pc th, th_pc th' with
  | AtAllocate, AtEpisode id => id = _episode t /\ _episode t' = _episode t + 1
  | _, _ => _episode t' = _episode t
  end.
Proof.
  cbv zeta. unfold thread_step. destruct (th_pc th) as [| |id|score| |r].
  - rewrite check_running_eq. destruct (_running t); reflexivity.
  - rewrite allocate_episode_eq. cbn. split; [reflexivity|].
    destruct t; reflexivity.
  - rewrite locked_episode_eq.
    destruct (episode_result _ _); cbn; destruct t; reflexivity.
  - rewrite append_score_eq. cbn. destruct t; reflexivity.
  - rewrite epoch_and_stop_checks_closed.
    destruct (report_fails t); cbn; destruct t; reflexivity.
  - reflexivity.
Qed.

Lemma consecutive_cons (first : Z) (n : nat) :
  consecutive first (S n) = first :: consecutive (first + 1) n.
Proof.
  unfold consecutive. cbn [seq map]. rewrite Z.add_0_r. f_equal.
  rewrite <- seq_shift, map_map. apply map_ext. intro k. lia.
Qed.

(** X13: however the calls of the workers overlap, the episode ids handed
    out are consecutive integers starting at the current value of the
    episode counter, in the order of allocation, so no two calls ever get
    the same id; and the counter ends up advanced by their number. *)
Theorem allocated_ids_are_consecutive (schedule : list nat)
    (m : list thread * trainer) :
  let ids := allocated schedule m in
  ids = consecutive (_episode (snd m)) (List.length ids)
  /\ _episode (snd (run_schedule schedule m))
     = _episode (snd m) + Z.of_nat (List.length ids).
Proof.
  cbv zeta. revert m. induction schedule as [|i schedule IH]; intro m.
  - cbn. split; [reflexivity|lia].
  - cbn [allocated run_schedule fold_left].
    fold (run_schedule schedule (machine_step i m)).
    destruct (IH (machine_step i m)) as [IHids IHend].
    unfold machine_step in *.
    destruct (nth_error (fst m) i) as [th|]; [|cbn [app]; now split].
    pose proof (thread_step_episode th (snd m)) as Hstep. cbv zeta in Hstep.
    destruct (thread_step th (snd m)) as [th' t'] eqn:Hts.
    cbn [fst snd] in *.
    destruct (th_pc th); destruct (th_pc th');
      try (cbn [app]; rewrite Hstep in *; now split).
    destruct Hstep as [Hid Hnext]. subst.
    cbn [app List.length]. rewrite consecutive_cons. split.
    + f_equal. rewrite <- Hnext. exact IHids.
    + rewrite IHend, Hnext. lia.
Qed.

(** ** More on building environments *)

Lemma wrap_all_injective (ps : list preprocess_spec) (e1 e2 : env) :
  wrap_all ps e1 = wrap_all ps e2 -> e1 = e2.
Proof.
  revert e1 e2. induction ps as [|p ps IH]; intros e1 e2 H; [exact H|].
  cbn [wrap_all fold_left] in H. apply IH in H. now injection H.
Qed.

Lemma wrappers_length (ps : list preprocess_spec) (e : env) :
  List.length (wrappers ps e) = List.length ps.
Proof.
  revert e. induction ps as [|p ps IH]; intro e; [reflexivity|].
  cbn [wrappers List.length]. now rewrite IH.
Qed.

(** X14: every call of [create_env] builds a new environment: two calls in
    a row return different objects, so workers that each build their own
    environment never share one (nor its lock).  Each call adds as many
    entries to the registry as there are preprocessors. *)
Theorem create_env_builds_a_new_environment (t : trainer) :
  let t1 := snd (create_env t) in
  let t2 := snd (create_env t1) in
  (forall e1 e2,
     fst (create_env t) = Returned e1 ->
     fst (create_env t1) = Returned e2 -> e1 <> e2)
  /\ List.length (_envs t1)
     = (List.length (_envs t) + List.length (_preprocesses t))%nat
  /\ List.length (_envs t2)
     = (List.length (_envs t) + 2 * List.length (_preprocesses t))%nat.
Proof.
  cbv zeta.
  assert (H1 : fst (create_env t)
               = Returned (wrap_all (_preprocesses t) (GymEnv (next_env t)))
               /\ _preprocesses (snd (create_env t)) = _preprocesses t
               /\ next_env (snd (create_env t)) = S (next_env t)
               /\ _envs (snd (create_env t))
                  = _envs t ++ wrappers (_preprocesses t) (GymEnv (next_env t)))
    by (rewrite create_env_eq; destruct t; repeat split).
  destruct H1 as (Hret & Hps & Hnext & Henvs).
  set (t1 := snd (create_env t)) in *.
  assert (H2 : fst (create_env t1)
               = Returned (wrap_all (_preprocesses t1) (GymEnv (next_env t1)))
               /\ _envs (snd (create_env t1))
                  = _envs t1
                    ++ wrappers (_preprocesses t1) (GymEnv (next_env t1)))
    by (rewrite create_env_eq; destruct t1; repeat split).
  destruct H2 as (Hret2 & Henvs2).
  split; [|split].
  - intros e1 e2 He1 He2. rewrite Hret in He1. rewrite Hret2 in He2.
    injection He1 as <-. injection He2 as <-.
    rewrite Hps, Hnext. intro Heq. apply wrap_all_injective in Heq.
    injection Heq. lia.
  - rewrite Henvs, length_app, wrappers_length. reflexivity.
  - rewrite Henvs2, length_app, Henvs, length_app, !wrappers_length, Hps. lia.
Qed.

Lemma wrap_all_snoc (ps : list preprocess_spec) (p : preprocess_spec)
    (e : env) :
  wrap_all (ps ++ [p]) e = Wrapped p (wrap_all ps e).
Proof. unfold wrap_all. now rewrite fold_left_app. Qed.

(** X15: preprocessors wrap in the order they were added.  As long as no
    environment is registered, adding one more preprocessor makes
    [create_env] return what it would have returned before, wrapped once
    more by the new preprocessor, which is thus the outermost. *)
Theorem last_added_preprocessor_is_outermost (p : preprocess_spec)
    (t : trainer) :
  _envs t = [] ->
  fst (add_preprocess p t) = Returned tt
  /\ forall e,
       fst (create_env t) = Returned e ->
       fst (create_env (snd (add_preprocess p t))) = Returned (Wrapped p e).
Proof.
  intro Henvs. unfold add_preprocess. rewrite bind_get, Henvs.
  cbn [fst snd modify]. split; [reflexivity|].
  intros e He. rewrite create_env_eq in *. cbn [fst] in *.
  injection He as <-.
  replace (_preprocesses (set_preprocesses _ t)) with (_preprocesses t ++ [p])
    by (destruct t; reflexivity).
  replace (next_env (set_preprocesses _ t)) with (next_env t)
    by (destruct t; reflexivity).
  now rewrite wrap_all_snoc.
Qed.

Lemma last_added_preprocessor_is_outermost_witness :
  let t := snd (add_preprocess grayscale short_pong) in
  fst (add_preprocess sharpen t) = Returned tt
  /\ forall e,
       fst (create_env t) = Returned e ->
       fst (create_env (snd (add_preprocess sharpen t)))
       = Returned (Wrapped sharpen e).
Proof.
  intro t. apply (last_added_preprocessor_is_outermost sharpen t). reflexivity.
Defined.

Lemma create_env_with_preprocesses_witness :
  exists e t',
    create_env (snd (add_preprocess grayscale short_pong)) = (Returned e, t')
    /\ In e (_envs t')
    /\ fst (add_preprocess sharpen t')
       = Raised (RuntimeError "must add preprocesses before creating envs").
Proof.
  apply (create_env_with_preprocesses sharpen
           (snd (add_preprocess grayscale short_pong))).
  vm_compute. discriminate.
Defined.

(** * Properties of the statistics helpers *)

(** ** Substrings and dictionaries *)

Lemma prefix_iff (n h : string) :
  String.prefix n h = true <-> exists post, h = (n ++ post)%string.
Proof.
  revert h. induction n as [|c n IH]; intro h.
  - split; [intros _; now exists h|intros _; now destruct h].
  - destruct h as [|d h]; cbn [String.prefix].
    + split; [discriminate|]. intros [post H]. discriminate H.
    + destruct (Ascii.ascii_dec c d) as [->|Hne].
      * rewrite IH. split; intros [post H]; exists post.
        -- cbn. now rewrite H.
        -- cbn in H. now injection H.
      * split; [discriminate|]. intros [post H]. cbn in H.
        injection H as Hc _. now contradiction Hne.
Qed.

(** [contains] is the substring test. *)
Lemma contains_iff (n h : string) :
  contains n h = true
  <-> exists pre post, h = (pre ++ n ++ post)%string.
Proof.
  induction h as [|d h IH]; cbn [contains]; rewrite orb_true_iff, prefix_iff.
  - split.
    + intros [[post H]|H]; [|discriminate]. now exists EmptyString, post.
    + intros [pre [post H]]. left. destruct pre; [|discriminate H].
      now exists post.
  - rewrite IH. split.
    + intros [[post H]|[pre [post H]]].
      * now exists EmptyString, post.
      * exists (String d pre), post. cbn. now rewrite H.
    + intros [pre [post H]]. destruct pre as [|c pre].
      * left. now exists post.
      * right. cbn in H. injection H as _ H. now exists pre, post.
Qed.

Lemma contains_refl (n : string) : contains n n = true.
Proof.
  apply contains_iff. exists EmptyString, EmptyString. cbn.
  induction n as [|c n IH]; [reflexivity|]. cbn. now rewrite <- IH.
Qed.

Lemma lookup_in_keys {T} (key : string) (tables : list (string * T)) :
  In key (map fst tables) -> exists table, lookup key tables = Some table.
Proof.
  induction tables as [|[k v] tables IH]; [contradiction|].
  cbn [map fst In lookup]. destruct (String.eqb k key) eqn:Hk.
  - intros _. now exists v.
  - intros [H|H]; [|now apply IH].
    subst. now rewrite String.eqb_refl in Hk.
Qed.

Lemma matching_in_keys {T} (metric name : string) (tables : list (string * T)) :
  In name (matching metric tables) ->
  In name (map fst tables) /\ contains metric name = true.
Proof. unfold matching. apply filter_In. Qed.

(** ** _select_metrics *)

Lemma select_loop_fine {T} (ms : list string) (tables : list (string * T)) :
  forall acc sel,
    select_loop ms tables acc = Fine sel
    <-> exists chosen,
          sel = acc ++ chosen
          /\ Forall2 (fun m kv => matching m tables = [fst kv]
                                  /\ lookup (fst kv) tables = Some (snd kv))
               ms chosen.
Proof.
  induction ms as [|m ms IH]; intros acc sel; cbn [select_loop].
  - split.
    + intro H. injection H as <-. exists []. now rewrite app_nil_r.
    + intros [chosen [-> H]]. inversion H. now rewrite app_nil_r.
  - destruct (matching m tables) as [|name [|name' rest]] eqn:Hm.
    + split; [discriminate|]. intros [chosen [_ H]].
      inversion H as [|m0 kv ms0 chosen0 [Hkv _] Hrest]; subst.
      rewrite Hm in Hkv. discriminate Hkv.
    + destruct (lookup name tables) as [table|] eqn:Hl.
      * rewrite IH. split.
        -- intros [chosen [-> H]]. exists ((name, table) :: chosen).
           split; [now rewrite <- app_assoc|].
           constructor; [split; [now rewrite Hm|exact Hl]|exact H].
        -- intros [chosen [-> H]].
           inversion H as [|m0 kv ms0 chosen0 [Hkv Hlk] Hrest]; subst.
           rewrite Hm in Hkv. injection Hkv as Hname.
           destruct kv as [k v]. cbn [fst snd] in *. subst k.
           rewrite Hl in Hlk. injection Hlk as <-.
           exists chosen0. split; [now rewrite <- app_assoc|exact Hrest].
      * split; [discriminate|]. intros [chosen [_ H]].
        inversion H as [|m0 kv ms0 chosen0 [Hkv Hlk] Hrest]; subst.
        rewrite Hm in Hkv. injection Hkv as Hname.
        rewrite <- Hname in Hlk. congruence.
    + split; [discriminate|]. intros [chosen [_ H]].
      inversion H as [|m0 kv ms0 chosen0 [Hkv _] Hrest]; subst.
      rewrite Hm in Hkv. discriminate Hkv.
Qed.

(** X16: when metrics were asked for, [_select_metrics] succeeds with a
    selection exactly if that selection has one entry per metric, in the
    order of the metrics, each entry being the one table whose name
    contains the metric as a substring, together with the table stored
    under that name. *)
Theorem _select_metrics_selects_unique_matches {T}
    (natural_sorted : list (string * T) -> list (string * T))
    (self : metrics) (m : string) (ms : list string)
    (tables sel : list (string * T)) :
  _metrics self = Some (m :: ms) ->
  _select_metrics natural_sorted self tables = Fine sel
  <-> Forall2 (fun m kv => matching m tables = [fst kv]
                           /\ lookup (fst kv) tables = Some (snd kv))
        (m :: ms) sel.
Proof.
  intro Hms. unfold _select_metrics. rewrite Hms, select_loop_fine.
  split; [intros [chosen [-> H]]; exact H|intro H; now exists sel].
Qed.

Lemma _select_metrics_selects_unique_matches_witness :
  _select_metrics (fun x => x)
    (Metrics "pdf" (Some ["loss"; "eps"]%string)) four_tables
  = Fine [("loss"%string, 3%nat); ("epsilon"%string, 4%nat)]
  <-> Forall2 (fun m kv => matching m four_tables = [fst kv]
                           /\ lookup (fst kv) four_tables = Some (snd kv))
        ["loss"; "eps"]%string
        [("loss"%string, 3%nat); ("epsilon"%string, 4%nat)].
Proof.
  apply _select_metrics_selects_unique_matches. reflexivity.
Defined.

Lemma select_loop_unique_prefix {T} (pre ms : list string)
    (tables : list (string * T)) :
  Forall (fun m => exists name, matching m tables = [name]) pre ->
  forall acc,
    exists acc', select_loop (pre ++ ms) tables acc = select_loop ms tables acc'.
Proof.
  induction 1 as [|m pre [name Hm] _ IH]; intro acc.
  - now exists acc.
  - cbn [app select_loop]. rewrite Hm.
    assert (Hin : In name (matching m tables)) by (rewrite Hm; now left).
    apply matching_in_keys in Hin as [Hin _].
    destruct (lookup_in_keys name tables Hin) as [table Hl]. rewrite Hl.
    apply IH.
Qed.

(** X17: [_select_metrics] fails on the first metric that does not single
    out one table.  If every metric before it matches exactly one table
    name, a metric that is a substring of no table name raises
    [KeyError] "found no metric for '...'", and one that is a substring of
    two or more raises [KeyError] "found multiple metric for '...'",
    whatever comes after it. *)
Theorem _select_metrics_rejects_first_bad_metric {T}
    (natural_sorted : list (string * T) -> list (string * T))
    (self : metrics) (pre : list string) (m : string) (post : list string)
    (tables : list (string * T)) :
  _metrics self = Some (pre ++ m :: post) ->
  Forall (fun m' => exists name, matching m' tables = [name]) pre ->
  (matching m tables = [] ->
   _select_metrics natural_sorted self tables
   = Failed (KeyError ("found no metric for '" ++ m ++ "'")))
  /\ ((2 <= List.length (matching m tables))%nat ->
      _select_metrics natural_sorted self tables
      = Failed (KeyError ("found multiple metric for '" ++ m ++ "'"))).
Proof.
  intros Hms Hpre. unfold _select_metrics. rewrite Hms.
  assert (Hloop : exists acc,
            match pre ++ m :: post with
            | [] => Fine (natural_sorted tables)
            | _ :: _ => select_loop (pre ++ m :: post) tables []
            end = select_loop (m :: post) tables acc).
  { destruct (select_loop_unique_prefix pre (m :: post) tables Hpre [])
      as [acc Hacc].
    exists acc. rewrite <- Hacc. now destruct pre. }
  destruct Hloop as [acc ->]. cbn [select_loop]. split.
  - intros ->. reflexivity.
  - intro Hlen. destruct (matching m tables) as [|n1 [|n2 rest]];
      cbn in Hlen; try lia. reflexivity.
Qed.

Lemma _select_metrics_rejects_first_bad_metric_witness :
  _select_metrics (fun x => x)
    (Metrics "pdf" (Some ["loss"%string; "reward"%string; "score"%string]))
    four_tables
  = Failed (KeyError ("found no metric for '" ++ "reward" ++ "'"))
  /\ _select_metrics (fun x => x)
       (Metrics "pdf" (Some ["loss"%string; "sc"%string; "reward"%string]))
       four_tables
     = Failed (KeyError ("found multiple metric for '" ++ "sc" ++ "'")).
Proof.
  assert (Hpre : Forall (fun m' : string =>
                           exists name, matching m' four_tables = [name])
                   ["loss"%string])
    by (constructor; [exists "loss"%string; reflexivity|constructor]).
  split.
  - apply (proj1 (_select_metrics_rejects_first_bad_metric (fun x => x)
             (Metrics "pdf"
                (Some ["loss"%string; "reward"%string; "score"%string]))
             ["loss"%string] "reward" ["score"%string] four_tables
             eq_refl Hpre)).
    reflexivity.
  - apply (proj2 (_select_metrics_rejects_first_bad_metric (fun x => x)
             (Metrics "pdf"
                (Some ["loss"%string; "sc"%string; "reward"%string]))
             ["loss"%string] "sc" ["reward"%string] four_tables
             eq_refl Hpre)).
    vm_compute. lia.
Defined.

Lemma two_members_length {A} (x y : A) (l : list A) :
  In x l -> In y l -> x <> y -> (2 <= List.length l)%nat.
Proof.
  intros Hx Hy Hne. destruct l as [|a [|b l]]; cbn in *; try lia.
  destruct Hx as [->|[]], Hy as [->|[]]. contradiction.
Qed.

(** X18: a metric is matched as a substring, and an exact name gets no
    preference: if the first metric is the full name of one table and
    also occurs inside the name of another table, [_select_metrics] raises
    [KeyError] "found multiple metric for '...'" instead of selecting the
    table of that name. *)
Theorem exact_name_is_ambiguous_inside_longer_name {T}
    (natural_sorted : list (string * T) -> list (string * T))
    (self : metrics) (name longer : string) (post : list string)
    (tables : list (string * T)) :
  _metrics self = Some (name :: post) ->
  In name (map fst tables) ->
  In longer (map fst tables) ->
  name <> longer ->
  contains name longer = true ->
  _select_metrics natural_sorted self tables
  = Failed (KeyError ("found multiple metric for '" ++ name ++ "'")).
Proof.
  intros Hms Hname Hlonger Hne Hsub.
  unfold _select_metrics. rewrite Hms. cbn [select_loop].
  assert (Hlen : (2 <= List.length (matching name tables))%nat).
  { apply (two_members_length name longer); [| |exact Hne];
      apply filter_In; split; auto using contains_refl. }
  destruct (matching name tables) as [|n1 [|n2 rest]];
    cbn in Hlen; try lia. reflexivity.
Qed.

Lemma exact_name_is_ambiguous_inside_longer_name_witness :
  _select_metrics (fun x => x) (Metrics "pdf" (Some ["score"%string]))
    four_tables
  = Failed (KeyError ("found multiple metric for '" ++ "score" ++ "'")).
Proof.
  apply (exact_name_is_ambiguous_inside_longer_name (fun x => x)
           (Metrics "pdf" (Some ["score"%string])) "score" "score_max" []
           four_tables).
  - reflexivity.
  - cbn. auto.
  - cbn. auto.
  - discriminate.
  - reflexivity.
Defined.

(** ** _aggregate *)

Lemma aggregate_loop {A B} (values : list A) (reducer : list A -> B)
    (pairs : list (Z * Z)) (acc : list B) :
  fold_left
    (fun groups '(start, stop) => groups ++ [reducer (slice start stop values)])
    pairs acc
  = acc ++ map (fun p => reducer (slice (fst p) (snd p) values)) pairs.
Proof.
  revert acc. induction pairs as [|[start stop] pairs IH]; intro acc;
    cbn [fold_left map fst snd].
  - now rewrite app_nil_r.
  - now rewrite IH, <- app_assoc.
Qed.

(** The loop of [_aggregate] builds the list of the reduced slices. *)
Lemma _aggregate_map {A B} (values : list A) (borders : list Z)
    (reducer : list A -> B) :
  _aggregate values borders reducer
  = map (fun p => reducer (slice (fst p) (snd p) values))
      (combine (removelast borders) (tl borders)).
Proof. unfold _aggregate. now rewrite aggregate_loop. Qed.

Lemma removelast_length {A} (l : list A) :
  List.length (removelast l) = (List.length l - 1)%nat.
Proof. rewrite removelast_firstn_len, length_firstn. lia. Qed.

(** X19: [_aggregate] returns one group less than there are borders, and
    none for an empty list of borders or a single border; the values play
    no part in the number of groups. *)
Theorem _aggregate_length {A B} (values : list A) (borders : list Z)
    (reducer : list A -> B) :
  List.length (_aggregate values borders reducer)
  = (List.length borders - 1)%nat.
Proof.
  rewrite _aggregate_map, length_map, length_combine.
  destruct borders as [|b borders]; [reflexivity|].
  cbn [tl]. rewrite removelast_length. cbn [List.length]. lia.
Qed.

Lemma slice_within {A} (a b : Z) (l : list A) :
  0 <= a -> a <= Z.of_nat (List.length l) ->
  0 <= b -> b <= Z.of_nat (List.length l) ->
  slice a b l = firstn (Z.to_nat b - Z.to_nat a) (skipn (Z.to_nat a) l).
Proof.
  intros Ha Ha' Hb Hb'. unfold slice.
  destruct (a <? 0) eqn:Hna; [apply Z.ltb_lt in Hna; lia|].
  destruct (b <? 0) eqn:Hnb; [apply Z.ltb_lt in Hnb; lia|].
  rewrite !Z.min_l by lia. f_equal. lia.
Qed.

Lemma firstn_firstn_skipn {A} (n m : nat) (l : list A) :
  firstn n l ++ firstn m (skipn n l) = firstn (n + m) l.
Proof.
  revert l. induction n as [|n IH]; intro l; [reflexivity|].
  destruct l as [|x l]; cbn [firstn skipn Nat.add app].
  - now rewrite firstn_nil.
  - now rewrite IH.
Qed.

Lemma slice_app {A} (a b c : Z) (l : list A) :
  0 <= a -> a <= b -> b <= c -> c <= Z.of_nat (List.length l) ->
  slice a b l ++ slice b c l = slice a c l.
Proof.
  intros Ha Hab Hbc Hc. rewrite !slice_within by lia.
  replace (skipn (Z.to_nat b) l)
    with (skipn (Z.to_nat b - Z.to_nat a) (skipn (Z.to_nat a) l))
    by (rewrite skipn_skipn; f_equal; lia).
  rewrite firstn_firstn_skipn. f_equal. lia.
Qed.

Lemma slice_empty {A} (a : Z) (l : list A) : slice a a l = [].
Proof. unfold slice. now rewrite Z.sub_diag. Qed.

Lemma slice_all {A} (l : list A) : slice 0 (Z.of_nat (List.length l)) l = l.
Proof.
  rewrite slice_within by lia. cbn [Z.to_nat skipn].
  rewrite Nat.sub_0_r, Nat2Z.id. apply firstn_all.
Qed.

Lemma last_cons {A} (c b : A) (l : list A) : last (c :: l) b = last l c.
Proof.
  revert c b. induction l as [|a l IH]; intros c b; [reflexivity|].
  change (last (c :: a :: l) b) with (last (a :: l) b).
  now rewrite !IH.
Qed.

Lemma ascending_last (borders : list Z) :
  forall b hi, ascending b borders hi -> b <= last borders b <= hi.
Proof.
  induction borders as [|c borders IH]; intros b hi Hasc.
  - cbn in *. lia.
  - destruct Hasc as [Hc Hasc]. specialize (IH c hi Hasc).
    rewrite last_cons. lia.
Qed.

Lemma pieces_ascending {A} (values : list A) (borders : list Z) :
  forall b,
    ascending b borders (Z.of_nat (List.length values)) -> 0 <= b ->
    List.concat (map (fun p => slice (fst p) (snd p) values)
                   (combine (removelast (b :: borders)) borders))
    = slice b (last borders b) values.
Proof.
  induction borders as [|b' borders IH]; intros b Hasc Hb.
  - cbn. now rewrite slice_empty.
  - destruct Hasc as [Hbb' Hasc].
    change (removelast (b :: b' :: borders))
      with (b :: removelast (b' :: borders)).
    cbn [combine map List.concat fst snd]. rewrite IH by (assumption || lia).
    pose proof (ascending_last borders b' _ Hasc) as Hlast.
    rewrite last_cons. apply slice_app; lia.
Qed.

(** X20: when the borders do not decrease and lie between 0 and the number
    of values, the groups cut the values between the first and the last
    border into consecutive pieces: nothing in that range is lost,
    repeated or reordered.  With the first border 0 and the last border
    the number of values, as [_plot] builds them, every value lands in
    exactly one group. *)
Theorem _aggregate_partitions_the_values {A} (values : list A) (b : Z)
    (borders : list Z) :
  ascending 0 (b :: borders) (Z.of_nat (List.length values)) ->
  List.concat (_aggregate values (b :: borders) (fun piece => piece))
  = slice b (last borders b) values
  /\ (b = 0 -> last borders b = Z.of_nat (List.length values) ->
      List.concat (_aggregate values (b :: borders) (fun piece => piece))
      = values).
Proof.
  intros [Hb Hasc]. rewrite _aggregate_map. cbn [tl].
  rewrite pieces_ascending by assumption. split; [reflexivity|].
  intros -> ->. apply slice_all.
Qed.

Lemma _aggregate_partitions_the_values_witness :
  List.concat (_aggregate [10; 20; 30; 40; 50] [0; 2; 2; 5]
                 (fun piece => piece))
  = [10; 20; 30; 40; 50].
Proof.
  refine (proj2 (_aggregate_partitions_the_values [10; 20; 30; 40; 50] 0
                   [2; 2; 5] _) eq_refl eq_refl).
  cbn. lia.
Defined.

Lemma slice_to_minus_one {A} (start : Z) (l : list A) :
  l <> [] -> slice start (-1) l = slice start (Z.of_nat (List.length l) - 1) l.
Proof.
  intro Hl. unfold slice.
  assert (0 < Z.of_nat (List.length l)) by (destruct l; [contradiction|cbn; lia]).
  replace (-1 <? 0) with true by reflexivity.
  destruct (Z.of_nat (List.length l) - 1 <? 0) eqn:Hneg;
    [apply Z.ltb_lt in Hneg; lia|].
  rewrite Z.max_l by lia. rewrite (Z.min_l (Z.of_nat (List.length l) - 1)) by lia.
  f_equal. f_equal. lia.
Qed.

Lemma pieces_to_minus_one {A} (values : list A) (borders starts : list Z) :
  values <> [] ->
  map (fun p => slice (fst p) (snd p) values) (combine starts (borders ++ [-1]))
  = map (fun p => slice (fst p) (snd p) values)
      (combine starts (borders ++ [Z.of_nat (List.length values) - 1])).
Proof.
  intro Hl. revert starts. induction borders as [|c borders IH]; intro starts.
  - destruct starts as [|x starts]; [reflexivity|].
    cbn [app combine map fst snd]. rewrite slice_to_minus_one by assumption.
    now destruct starts.
  - destruct starts as [|x starts]; [reflexivity|].
    cbn [app combine map]. now rewrite IH.
Qed.

Lemma ascending_snoc (borders : list Z) :
  forall b hi, ascending b borders hi -> ascending b (borders ++ [hi]) (hi + 1).
Proof.
  induction borders as [|c borders IH]; intros b hi Hasc.
  - cbn in *. lia.
  - destruct Hasc as [Hc Hasc]. cbn [app ascending]. split; [exact Hc|].
    now apply IH.
Qed.

(** X21: a final border of -1 is read as a slice end, so the last slice
    stops one short of the end.  With borders that start with
    non-decreasing positions inside the values and end in -1, which is how
    [_aggrerate_consecutive] builds them, the groups cover the values from
    the first border up to the last but one: the last value is in no
    group. *)
Theorem _aggregate_border_minus_one_drops_last_value {A} (values : list A)
    (b : Z) (borders : list Z) :
  values <> [] ->
  ascending 0 (b :: borders) (Z.of_nat (List.length values) - 1) ->
  List.concat (_aggregate values (b :: borders ++ [-1]) (fun piece => piece))
  = slice b (Z.of_nat (List.length values) - 1) values
  /\ (b = 0 ->
      List.concat (_aggregate values (b :: borders ++ [-1]) (fun piece => piece))
      = removelast values).
Proof.
  intros Hl [Hb Hasc]. rewrite _aggregate_map. cbn [tl].
  replace (removelast (b :: borders ++ [-1])) with (b :: borders)
    by (change (b :: borders ++ [-1]) with ((b :: borders) ++ [-1]);
        now rewrite removelast_last).
  rewrite pieces_to_minus_one by assumption.
  set (n := Z.of_nat (List.length values)).
  replace (b :: borders)
    with (removelast (b :: borders ++ [n - 1]))
    by (change (b :: borders ++ [n - 1]) with ((b :: borders) ++ [n - 1]);
        now rewrite removelast_last).
  assert (Hsnoc : ascending b (borders ++ [n - 1]) n).
  { replace n with (n - 1 + 1) at 2 by lia. now apply ascending_snoc. }
  subst n. rewrite pieces_ascending by assumption.
  rewrite last_last. split; [reflexivity|].
  intros ->.
  assert (0 < Z.of_nat (List.length values))
    by (destruct values; [contradiction|cbn; lia]).
  rewrite slice_within by lia.
  cbn [Z.to_nat skipn]. rewrite removelast_firstn_len. f_equal. lia.
Qed.

Lemma _aggregate_border_minus_one_drops_last_value_witness :
  List.concat (_aggregate [10; 20; 30; 40; 50] [0; 2; 3; -1]
                 (fun piece => piece))
  = removelast [10; 20; 30; 40; 50].
Proof.
  refine (proj2 (_aggregate_border_minus_one_drops_last_value
                   [10; 20; 30; 40; 50] 0 [2; 3] _ _) eq_refl).
  - discriminate.
  - cbn. lia.
Defined.
